(** * A basic training loop: the exported code of [dev_nb/001b_fit.ipynb]

    The notebook sequences calls into PyTorch and NumPy.  The framework is
    kept abstract: its objects are opaque, each call into it may change a
    hidden world, may raise, and is recorded in a trace.  The notebook's own
    functions are written over a state-and-exception monad on top of that
    interface, and its own objects (the three dataclasses and [Learner])
    live in a heap of records.

    What the interface fixes:
    - a call into the framework is given the autograd mode and the hidden
      world; it returns a value or an exception and a new world.  It
      cannot change the autograd mode, which only [torch.no_grad()] does
      here, and it cannot reach the objects of the notebook;
    - one traversal of a framework loader is the call [Iterate dl], which
      gives the finite list of the batches of that traversal; the loops of
      the notebook then take them one at a time;
    - [np.sum] of Python integers is exact; the arithmetic on [float64] is
      that of the framework and is not interpreted.

    The statements about a function have two halves: what a call that
    returned has done and returned, in any framework; and that the call
    does return when no framework call raises.  What happens when a call
    raises is the subject of the section on failures. *)

From Stdlib Require Import ZArith QArith List String Lia.
From stdpp Require Import base option list gmap.
Import ListNotations.
Local Open Scope Z_scope.

(** ** Python exceptions *)

Inductive Exn : Type :=
| ValueError (msg : string)
| IndexError (msg : string)
| TypeError (msg : string)
| AttributeError (msg : string)
| RuntimeError (msg : string).

(** [torch.device(name)] *)
Inductive Device : Type :=
| torch_device (name : string).

(** ** The framework interface *)

(** Objects owned by PyTorch, and the arithmetic of NumPy on [float64]. *)
Class Framework : Type := {
  Tensor : Type;
  Model : Type;
  Optimizer : Type;
  LossFunction : Type;
  DataLoader : Type;
  Dataset : Type;
  Transform : Type;
  Params : Type;
  OptFactory : Type;
  Float : Type;
  (** [float64] product and quotient, [np.sum] of a [float64] array, and the
      conversion of a Python [int] *)
  fmul : Float -> Float -> Float;
  fdiv : Float -> Float -> Float;
  np_sum : list Float -> Float;
  of_int : Z -> Float;
  (** [torch.cuda.is_available()], read once at import *)
  cuda_available : bool;
  (** [F.cross_entropy] *)
  cross_entropy : LossFunction
}.

Definition loc : Type := positive.

Section Interface.
Context {F : Framework}.

(** [Tensors = Union[Tensor, Collection['Tensors']]], with the two
    collections [is_listy] knows told apart. *)
#[warnings="-register-all"]
Inductive Tensors : Type :=
| Tns (t : Tensor)
| PyTuple (os : list Tensors)
| PyList (os : list Tensors).

(** The two functions the notebook wraps in [Lambda]. *)
Inductive LambdaFunc : Type :=
| view_resize (size : list Z)   (* lambda x: x.view((-1,)+size) *)
| view_flatten.                 (* lambda x: x.view((x.size(0), -1)) *)

(** What a module constructor is called with.  [Lambda] is the notebook's
    own subclass of [nn.Module]; the others are PyTorch's. *)
Inductive ModuleSpec : Type :=
| Lambda (func : LambdaFunc)
| nn_Conv2d (ni nf kernel_size stride padding : Z) (bias : bool)
| nn_ConvTranspose2d (ni nf kernel_size stride padding : Z)
| nn_ReLU
| nn_BatchNorm2d (nf : Z)
| nn_AdaptiveAvgPool2d (output_size : Z)
| nn_Sequential (layers : list Model).

(** Arguments handed to the [DataLoader] constructor. *)
Inductive Arg : Type :=
| ARef (r : loc)
| AInt (z : Z)
| ABool (b : bool).

(** Calls into the framework. *)
Inductive Call : Type :=
| Forward (model : Model) (args : list Tensors)          (* model called on the items of xb *)
| LossFn (loss_fn : LossFunction) (out : Tensor) (targets : list Tensors)
                                      (* loss_fn called on out and the items of yb *)
| Backward (loss : Tensor)                                (* loss.backward() *)
| OptStep (opt : Optimizer)                               (* opt.step() *)
| ZeroGrad (opt : Optimizer)                              (* opt.zero_grad() *)
| Item (loss : Tensor)                                    (* loss.item() *)
| Train (model : Model)                                   (* model.train() *)
| Eval (model : Model)                                    (* model.eval() *)
| Print (epoch : Z) (val_loss : Float)                    (* print(epoch, val_loss) *)
| Iterate (dl : DataLoader)                               (* iter(dl), drained *)
| Len (dl : DataLoader)                                   (* len(dl) *)
| TensorIter (t : Tensor)                                 (* iter(t), drained *)
| DsLen (ds : Dataset)                                    (* len(ds) *)
| DsGetItem (ds : Dataset) (idx : Z)                      (* ds[idx] *)
| ApplyTfm (tfm : Transform) (x : Tensors)                (* tfm(x) *)
| TensorTo (t : Tensor) (device : Device)                 (* t.to(device) *)
| ModuleTo (m : Model) (device : Device)                  (* m.to(device) *)
| View (x : Tensor) (size : list Z)                       (* x.view(size) *)
| Size (x : Tensor) (dim : Z)                             (* x.size(dim) *)
| NewDataLoader (args : list Arg) (kwargs : list (string * Arg))
                                      (* the DataLoader constructor on args and kwargs *)
| New (spec : ModuleSpec)                                 (* a module constructor *)
| Parameters (m : Model)                                  (* m.parameters() *)
| NewOptimizer (opt_fn : OptFactory) (ps : Params) (lr : Float).
                                                          (* opt_fn(ps, lr=lr) *)

(** What a call returns when it does not raise. *)
Definition resp (c : Call) : Type :=
  match c with
  | Forward _ _ | LossFn _ _ _ | TensorTo _ _ | View _ _ => Tensor
  | Backward _ | OptStep _ | ZeroGrad _ | Train _ | Eval _ | Print _ _ => unit
  | Item _ => Float
  | Iterate _ => list Tensors
  | Len _ | DsLen _ => nat
  | TensorIter _ => list Tensor
  | DsGetItem _ _ | ApplyTfm _ _ => Tensors
  | ModuleTo _ _ | New _ => Model
  | Size _ _ => Z
  | NewDataLoader _ _ => DataLoader
  | Parameters _ => Params
  | NewOptimizer _ _ _ => Optimizer
  end.

(** What the trace records: every call with the autograd mode it ran under
    and its outcome, and the entry to and exit from [torch.no_grad()]. *)
Inductive Event : Type :=
| Called (c : Call) (grad : bool) (r : Exn + resp c)
| NoGradEnter
| NoGradExit.

End Interface.

(** The hidden state of the framework and its behaviour. *)
Class Runtime {F : Framework} : Type := {
  World : Type;
  fw : forall c : Call, bool -> World -> (Exn + resp c) * World
}.

(** ** The notebook's own objects *)

Section Objects.
Context {F : Framework}.

(** What [fit] iterates over: a framework [DataLoader], or a reference to a
    [DeviceDataLoader] of this notebook. *)
Inductive Loader : Type :=
| ExtDL (dl : DataLoader)
| DevDL (r : loc).

(** [@dataclass class DatasetTfm(Dataset)], fields [ds] and [tfm = None]. *)
Record DatasetTfm : Type := mkDatasetTfm {
  self_ds : Dataset;
  self_tfm : option Transform
}.

(** The object [map(self.proc_batch, self.dl)] builds: the bound method's
    [self] and the batches of the traversal it was started on.  How far the
    iterator has advanced is not recorded. *)
Record MapObject : Type := mkMapObject {
  map_self : loc;
  map_batches : list Tensors
}.

(** [@dataclass class DeviceDataLoader], fields [dl] and [device]; [gen] is
    the attribute [__iter__] assigns, absent until then. *)
Record DeviceDataLoader : Type := mkDeviceDataLoader {
  self_dl : DataLoader;
  self_device : option Device;
  self_gen : option MapObject
}.

(** [@dataclass class DataBunch], fields [train_dl], [valid_dl] and
    [device = None]. *)
Record DataBunch : Type := mkDataBunch {
  bunch_train_dl : Loader;
  bunch_valid_dl : Loader;
  bunch_device : option Device
}.

(** [class Learner], attributes [data] and [model]. *)
Record Learner : Type := mkLearner {
  learner_data : loc;
  learner_model : Model
}.

Inductive Obj : Type :=
| ODatasetTfm (o : DatasetTfm)
| ODeviceDataLoader (o : DeviceDataLoader)
| ODataBunch (o : DataBunch)
| OLearner (o : Learner).

End Objects.

(** ** The monad: state, exceptions and the trace *)

Section Monad.
Context {F : Framework} {R : Runtime}.

Record St : Type := mkSt {
  world : World;
  grad_enabled : bool;          (* torch.is_grad_enabled() *)
  heap : gmap loc Obj;
  trace : list Event
}.

Definition M (A : Type) : Type := St -> (Exn + A) * St.

Definition ret {A} (a : A) : M A := fun s => (inr a, s).

Definition bind {A B} (m : M A) (k : A -> M B) : M B :=
  fun s => match m s with
           | (inr a, s') => k a s'
           | (inl e, s') => (inl e, s')
           end.

Definition raise {A} (e : Exn) : M A := fun s => (inl e, s).

Definition log (ev : Event) (s : St) : St :=
  mkSt (world s) (grad_enabled s) (heap s) (trace s ++ [ev]).

Definition set_grad_enabled (g : bool) (s : St) : St :=
  mkSt (world s) g (heap s) (trace s).

(** A call into the framework: the world moves, the call is recorded, and an
    exception the framework raises is raised here. *)
Definition call (c : Call) : M (resp c) :=
  fun s => let '(r, w) := fw c (grad_enabled s) (world s) in
           (r, log (Called c (grad_enabled s) r)
                   (mkSt w (grad_enabled s) (heap s) (trace s))).

(** [with torch.no_grad(): body].  The context manager saves the autograd
    mode, switches it off, and restores it on the way out, whether [body]
    returned or raised; its [__exit__] returns [False], so an exception of
    [body] goes on to the caller. *)
Definition with_no_grad {A} (body : M A) : M A :=
  fun s => let prev := grad_enabled s in
           let '(r, s') := body (log NoGradEnter (set_grad_enabled false s)) in
           (r, log NoGradExit (set_grad_enabled prev s')).

(** Allocation of an object of this notebook. *)
Definition alloc (o : Obj) : M loc :=
  fun s => let r := fresh (dom (heap s)) in
           (inr r, mkSt (world s) (grad_enabled s) (<[r := o]> (heap s)) (trace s)).

Definition store (r : loc) (o : Obj) : M unit :=
  fun s => (inr tt, mkSt (world s) (grad_enabled s) (<[r := o]> (heap s)) (trace s)).

Definition no_attribute {A} : M A :=
  raise (AttributeError "object has no such attribute").

Definition get_DatasetTfm (r : loc) : M DatasetTfm :=
  fun s => match heap s !! r with
           | Some (ODatasetTfm o) => (inr o, s)
           | _ => no_attribute s
           end.

Definition get_DeviceDataLoader (r : loc) : M DeviceDataLoader :=
  fun s => match heap s !! r with
           | Some (ODeviceDataLoader o) => (inr o, s)
           | _ => no_attribute s
           end.

Definition get_DataBunch (r : loc) : M DataBunch :=
  fun s => match heap s !! r with
           | Some (ODataBunch o) => (inr o, s)
           | _ => no_attribute s
           end.

Definition get_Learner (r : loc) : M Learner :=
  fun s => match heap s !! r with
           | Some (OLearner o) => (inr o, s)
           | _ => no_attribute s
           end.

End Monad.

Arguments bind {_ _ A B} & m k.

Declare Scope py_scope.
Delimit Scope py_scope with py.
Notation "x <- y ; z" := (bind y (fun x => z))
  (at level 20, y at level 100, z at level 200, only parsing) : py_scope.
Notation "' x <- y ; z" := (bind y (fun x => z))
  (at level 20, x pattern, y at level 100, z at level 200, only parsing) : py_scope.
Notation "x ;; z" := (bind x (fun _ => z))
  (at level 100, z at level 200, only parsing, right associativity) : py_scope.
Local Open Scope py_scope.

(** ** Pure helpers *)

Section Helpers.
Context {F : Framework}.

(** [def is_listy(x): return isinstance(x, (tuple,list))] *)
Definition is_listy (x : Tensors) : bool :=
  match x with
  | PyTuple _ | PyList _ => true
  | Tns _ => false
  end.

(** The items of a tuple or list, as the star in a call and [len] see them. *)
Definition items (x : Tensors) : list Tensors :=
  match x with
  | PyTuple os | PyList os => os
  | Tns _ => []
  end.

(** [def ifnone(a, b): return b if a is None else a] *)
Definition ifnone {A} (a : option A) (b : A) : A :=
  match a with
  | None => b
  | Some a => a
  end.

(** [default_device = torch.device('cuda') if torch.cuda.is_available()
    else torch.device('cpu')] *)
Definition default_device : Device :=
  if cuda_available then torch_device "cuda" else torch_device "cpu".

(** [range(n)] *)
Definition range (n : Z) : list Z := map Z.of_nat (seq 0 (Z.to_nat n)).

(** [l[i]] on a Python list. *)
Definition getitem {A} (l : list A) (i : Z) : Exn + A :=
  let n := Z.of_nat (length l) in
  let j := if i <? 0 then i + n else i in
  match (if (0 <=? j) && (j <? n) then l !! Z.to_nat j else None) with
  | Some x => inr x
  | None => inl (IndexError "list index out of range")
  end.

(** [def noop(x): return x] *)
Definition noop {A} (x : A) : A := x.

(** [np.multiply(losses, nums)] on two tuples of equal length. *)
Definition np_multiply (losses : list Float) (nums : list Z) : list Float :=
  zip_with (fun l n => fmul l (of_int n)) losses nums.

(** [np.sum(nums)] on a tuple of Python ints. *)
Definition np_sum_int (nums : list Z) : Z := foldr Z.add 0 nums.

(** [np.sum(np.multiply(losses,nums)) / np.sum(nums)] *)
Definition val_loss_of (losses : list Float) (nums : list Z) : Float :=
  fdiv (np_sum (np_multiply losses nums)) (of_int (np_sum_int nums)).

End Helpers.

(** ** The training step, the wrappers and the training loop *)

Section Code.
Context {F : Framework} {R : Runtime}.

(** [for x in it: body(x)], the iterator given as the computations that
    produce its successive items. *)
Fixpoint for_ {A} (it : list (M A)) (body : A -> M unit) : M unit :=
  match it with
  | [] => ret tt
  | next :: it => x <- next; body x;; for_ it body
  end.

(** [[f(x) for x in it]] *)
Fixpoint comprehension {A B} (it : list (M A)) (f : A -> M B) : M (list B) :=
  match it with
  | [] => ret []
  | next :: it => x <- next; y <- f x; ys <- comprehension it f; ret (y :: ys)
  end.

(** The same over a list that is at hand: each item is ready. *)
Definition comprehension_of {A B} (f : A -> M B) : list A -> M (list B) :=
  fix go l :=
    match l with
    | [] => ret []
    | x :: l => y <- f x; ys <- go l; ret (y :: ys)
    end.

(** [a, b = v] *)
Definition unpack2 (v : Tensors) : M (Tensors * Tensors) :=
  vs <- match v with
        | Tns t => ts <- call (TensorIter t); ret (map Tns ts)
        | PyTuple os | PyList os => ret os
        end;
  match vs with
  | [a; b] => ret (a, b)
  | _ :: _ :: _ :: _ => raise (ValueError "too many values to unpack (expected 2)")
  | _ => raise (ValueError "not enough values to unpack (expected 2)")
  end.

(** [losses, nums = zip( *rs)] for a list [rs] of pairs: [zip] of no
    argument is empty and cannot be unpacked into two names. *)
Definition unzip2 {A B} (rs : list (A * B)) : M (list A * list B) :=
  match rs with
  | [] => raise (ValueError "not enough values to unpack (expected 2, got 0)")
  | _ => ret (map fst rs, map snd rs)
  end.

(** [def loss_batch(model, xb, yb, loss_fn, opt=None)] *)
Definition loss_batch (model : Model) (xb yb : Tensors) (loss_fn : LossFunction)
    (opt : option Optimizer) : M (Float * Z) :=
  let xb := if negb (is_listy xb) then PyList [xb] else xb in
  let yb := if negb (is_listy yb) then PyList [yb] else yb in
  out <- call (Forward model (items xb));
  loss <- call (LossFn loss_fn out (items yb));
  match opt with
  | Some opt =>
    call (Backward loss);;
    call (OptStep opt);;
    call (ZeroGrad opt)
  | None => ret tt
  end;;
  v <- call (Item loss);
  ret (v, Z.of_nat (length (items yb))).

(** [Lambda.forward]: [self.func(x)], for the two functions in use. *)
Definition Lambda_forward (func : LambdaFunc) (x : Tensor) : M Tensor :=
  match func with
  | view_resize size => call (View x (-1 :: size))
  | view_flatten => n <- call (Size x 0); call (View x [n; -1])
  end.

(** *** Layers *)

(** [def ResizeBatch( *size): return Lambda(lambda x: x.view((-1,)+size))] *)
Definition ResizeBatch (size : list Z) : M Model :=
  call (New (Lambda (view_resize size))).

(** [def Flatten(): return Lambda(lambda x: x.view((x.size(0), -1)))] *)
Definition Flatten : M Model :=
  call (New (Lambda view_flatten)).

(** [def PoolFlatten(): return nn.Sequential(nn.AdaptiveAvgPool2d(1), Flatten())] *)
Definition PoolFlatten : M Model :=
  pool <- call (New (nn_AdaptiveAvgPool2d 1));
  flat <- Flatten;
  call (New (nn_Sequential [pool; flat])).

(** [def conv2d(ni, nf, ks=3, stride=1, padding=None, bias=False)] *)
Definition conv2d (ni nf ks stride : Z) (padding : option Z) (bias : bool) : M Model :=
  let padding := match padding with None => ks / 2 | Some p => p end in
  call (New (nn_Conv2d ni nf ks stride padding bias)).

(** [def conv2d_relu(ni, nf, ks=3, stride=1, padding=None, bn=False)] *)
Definition conv2d_relu (ni nf ks stride : Z) (padding : option Z) (bn : bool) : M Model :=
  conv <- conv2d ni nf ks stride padding false;
  relu <- call (New nn_ReLU);
  let layers := [conv; relu] in
  layers <- (if bn then norm <- call (New (nn_BatchNorm2d nf)); ret (layers ++ [norm])
             else ret layers);
  call (New (nn_Sequential layers)).

(** [def conv2d_trans(ni, nf, ks=2, stride=2, padding=0)] *)
Definition conv2d_trans (ni nf ks stride padding : Z) : M Model :=
  call (New (nn_ConvTranspose2d ni nf ks stride padding)).

(** [l[i]], raising the [IndexError] of an index out of range. *)
Definition index {A} (l : list A) (i : Z) : M A :=
  match getitem l i with
  | inl e => raise e
  | inr x => ret x
  end.

(** [def simple_cnn(actns, kernel_szs, strides)] *)
Definition simple_cnn (actns kernel_szs strides : list Z) : M Model :=
  layers <- comprehension_of (fun i =>
              ni <- index actns i;
              nf <- index actns (i + 1);
              ks <- index kernel_szs i;
              stride <- index strides i;
              conv2d_relu ni nf ks stride None false)
            (range (Z.of_nat (length strides)));
  pf <- PoolFlatten;
  let layers := layers ++ [pf] in
  call (New (nn_Sequential layers)).

(** *** [DatasetTfm] *)

Definition DatasetTfm_init (ds : Dataset) (tfm : option Transform) : M loc :=
  alloc (ODatasetTfm (mkDatasetTfm ds tfm)).

(** [def __len__(self): return len(self.ds)] *)
Definition DatasetTfm_len (self : loc) : M nat :=
  o <- get_DatasetTfm self;
  call (DsLen (self_ds o)).

(** [def __getitem__(self, idx)] *)
Definition DatasetTfm_getitem (self : loc) (idx : Z) : M Tensors :=
  o <- get_DatasetTfm self;
  item <- call (DsGetItem (self_ds o) idx);
  '(x, y) <- unpack2 item;
  o <- get_DatasetTfm self;
  x <- match self_tfm o with
       | Some tfm => call (ApplyTfm tfm x)
       | None => ret x
       end;
  ret (PyTuple [x; y]).

(** *** [to_device] and [DeviceDataLoader] *)

(** [def to_device(b, device)] *)
Fixpoint to_device (b : Tensors) (device : option Device) : M Tensors :=
  let device := ifnone device default_device in
  match b with
  | PyTuple os | PyList os =>
    rs <- comprehension_of (fun o => to_device o (Some device)) os;
    ret (PyList rs)
  | Tns t => t <- call (TensorTo t device); ret (Tns t)
  end.

(** [to_device] on a module, which is not listy: only [b.to(device)] runs. *)
Definition to_device_module (b : Model) (device : option Device) : M Model :=
  let device := ifnone device default_device in
  call (ModuleTo b device).

Definition DeviceDataLoader_init (dl : DataLoader) (device : option Device) : M loc :=
  alloc (ODeviceDataLoader (mkDeviceDataLoader dl device None)).

(** [def __len__(self): return len(self.dl)] *)
Definition DeviceDataLoader_len (self : loc) : M nat :=
  o <- get_DeviceDataLoader self;
  call (Len (self_dl o)).

(** [def proc_batch(self, b): return to_device(b, self.device)] *)
Definition DeviceDataLoader_proc_batch (self : loc) (b : Tensors) : M Tensors :=
  o <- get_DeviceDataLoader self;
  to_device b (self_device o).

(** [self.gen = g] *)
Definition set_gen (self : loc) (g : MapObject) : M unit :=
  o <- get_DeviceDataLoader self;
  store self (ODeviceDataLoader (mkDeviceDataLoader (self_dl o) (self_device o) (Some g))).

(** [def __iter__(self)]: [map] starts a traversal of [self.dl] at once and
    applies [self.proc_batch] to a batch when that batch is asked for. *)
Definition DeviceDataLoader_iter (self : loc) : M (list (M Tensors)) :=
  o <- get_DeviceDataLoader self;
  bs <- call (Iterate (self_dl o));
  set_gen self (mkMapObject self bs);;
  ret (map (DeviceDataLoader_proc_batch self) bs).

(** [def create(cls, *args, device=default_device, **kwargs)] *)
Definition DeviceDataLoader_create (args : list Arg) (device : option Device)
    (kwargs : list (string * Arg)) : M loc :=
  dl <- call (NewDataLoader args kwargs);
  DeviceDataLoader_init dl device.

(** *** [fit] *)

(** [iter(dl)] *)
Definition iter (dl : Loader) : M (list (M Tensors)) :=
  match dl with
  | ExtDL dl => bs <- call (Iterate dl); ret (map ret bs)
  | DevDL r => DeviceDataLoader_iter r
  end.

(** [def fit(epochs, model, loss_fn, opt, train_dl, valid_dl)] *)
Definition fit (epochs : Z) (model : Model) (loss_fn : LossFunction) (opt : Optimizer)
    (train_dl valid_dl : Loader) : M unit :=
  for_ (map ret (range epochs)) (fun epoch =>
    call (Train model);;
    it <- iter train_dl;
    for_ it (fun b =>
      '(xb, yb) <- unpack2 b;
      '(loss, _) <- loss_batch model xb yb loss_fn (Some opt);
      ret tt);;
    call (Eval model);;
    '(losses, nums) <- with_no_grad (
      it <- iter valid_dl;
      rs <- comprehension it (fun b =>
        '(xb, yb) <- unpack2 b;
        loss_batch model xb yb loss_fn None);
      unzip2 rs);
    let val_loss := val_loss_of losses nums in
    call (Print epoch val_loss)).

(** *** [DataBunch] and [Learner] *)

Definition DataBunch_init (train_dl valid_dl : Loader) (device : option Device) : M loc :=
  alloc (ODataBunch (mkDataBunch train_dl valid_dl device)).

(** A keyword given both by name and through the double-star dictionary. *)
Definition check_keyword (name : string) (kwargs : list (string * Arg)) : M unit :=
  if existsb (String.eqb name) (map fst kwargs)
  then raise (TypeError "got multiple values for keyword argument")
  else ret tt.

(** [def create(cls, train_ds, valid_ds, bs=64, train_tfm=None,
    valid_tfm=None, device=None, **kwargs)] *)
Definition DataBunch_create (train_ds valid_ds : Dataset) (bs : Z)
    (train_tfm valid_tfm : option Transform) (device : option Device)
    (kwargs : list (string * Arg)) : M loc :=
  tds <- DatasetTfm_init train_ds train_tfm;
  check_keyword "shuffle" kwargs;;
  tdl <- DeviceDataLoader_create [ARef tds; AInt bs] device
           (("shuffle"%string, ABool true) :: kwargs);
  vds <- DatasetTfm_init valid_ds valid_tfm;
  check_keyword "shuffle" kwargs;;
  vdl <- DeviceDataLoader_create [ARef vds; AInt (bs * 2)] device
           (("shuffle"%string, ABool false) :: kwargs);
  DataBunch_init (DevDL tdl) (DevDL vdl) device.

(** [def __init__(self, data, model)] *)
Definition Learner_init (data : loc) (model : Model) : M loc :=
  d <- get_DataBunch data;
  model <- to_device_module model (bunch_device d);
  alloc (OLearner (mkLearner data model)).

(** [def fit(self, epochs, lr, opt_fn=optim.SGD)] *)
Definition Learner_fit (self : loc) (epochs : Z) (lr : Float) (opt_fn : OptFactory) : M unit :=
  o <- get_Learner self;
  ps <- call (Parameters (learner_model o));
  opt <- call (NewOptimizer opt_fn ps lr);
  let loss_fn := cross_entropy in
  d <- get_DataBunch (learner_data o);
  fit epochs (learner_model o) loss_fn opt (bunch_train_dl d) (bunch_valid_dl d).

End Code.

(** ** A small framework to run the code on

    Tensors are integers, a loader is the list of its batches, a model has
    one weight.  The forward pass raises on the input [bad], if one is
    given. *)

Module Toy.

Definition qsum (l : list Q) : Q := foldr Qplus (0 # 1)%Q l.

(** A module is the tree of the constructor calls that built it. *)
#[warnings="-register-all"]
Inductive Layer : Type :=
| LLambda (func : LambdaFunc)
| LConv2d (ni nf kernel_size stride padding : Z) (bias : bool)
| LConvTranspose2d (ni nf kernel_size stride padding : Z)
| LReLU
| LBatchNorm2d (nf : Z)
| LAdaptiveAvgPool2d (output_size : Z)
| LSequential (layers : list Layer).

Definition framework : Framework := {|
  Tensor := Z;
  Model := Layer;
  Optimizer := unit;
  LossFunction := unit;
  DataLoader := list (list Z);
  Dataset := list (Z * Z);
  Transform := Z;
  Params := unit;
  OptFactory := unit;
  Float := Q;
  fmul := Qmult;
  fdiv := Qdiv;
  np_sum := qsum;
  of_int := inject_Z;
  cuda_available := false;
  cross_entropy := tt
|}.

Record world : Type := mkWorld {
  weight : Z;
  gradient : Z;
  training : bool;
  printed : list (Z * Q)
}.

Definition build (spec : ModuleSpec (F := framework)) : Layer :=
  match spec with
  | Lambda func => LLambda func
  | nn_Conv2d ni nf ks stride padding bias => LConv2d ni nf ks stride padding bias
  | nn_ConvTranspose2d ni nf ks stride padding => LConvTranspose2d ni nf ks stride padding
  | nn_ReLU => LReLU
  | nn_BatchNorm2d nf => LBatchNorm2d nf
  | nn_AdaptiveAvgPool2d n => LAdaptiveAvgPool2d n
  | nn_Sequential layers => LSequential layers
  end.

Definition batch_of (zs : list Z) : Tensors (F := framework) :=
  PyList (map (Tns (F := framework)) zs).

Fixpoint shift (k : Z) (x : Tensors (F := framework)) : Tensors (F := framework) :=
  match x with
  | Tns t => Tns (F := framework) (t + k)
  | PyTuple os => PyTuple (map (shift k) os)
  | PyList os => PyList (map (shift k) os)
  end.

Definition handler (bad : option Z) (c : Call (F := framework)) (g : bool) (w : world)
    : (Exn + resp c) * world :=
  match c return (Exn + resp c) * world with
  | Forward _ args =>
    match args with
    | [Tns x] =>
      if decide (bad = Some x) then (inl (RuntimeError "size mismatch"), w)
      else (inr (weight w * x), w)
    | _ => (inr 0, w)
    end
  | LossFn _ out targets =>
    match targets with
    | [Tns y] => (inr (Z.abs (out - y)), w)
    | _ => (inr out, w)
    end
  | Backward loss =>
    (inr tt, if g then mkWorld (weight w) (gradient w + loss) (training w) (printed w) else w)
  | OptStep _ => (inr tt, mkWorld (weight w - gradient w) (gradient w) (training w) (printed w))
  | ZeroGrad _ => (inr tt, mkWorld (weight w) 0 (training w) (printed w))
  | Item loss => (inr (inject_Z loss), w)
  | Train _ => (inr tt, mkWorld (weight w) (gradient w) true (printed w))
  | Eval _ => (inr tt, mkWorld (weight w) (gradient w) false (printed w))
  | Print epoch v =>
    (inr tt, mkWorld (weight w) (gradient w) (training w) (printed w ++ [(epoch, v)]))
  | Iterate dl => (inr (map batch_of dl), w)
  | Len dl => (inr (length dl), w)
  | TensorIter t => (inr [t; t], w)
  | DsLen ds => (inr (length ds), w)
  | DsGetItem ds idx =>
    let '(x, y) := nth (Z.to_nat idx) ds (0, 0) in
    (inr (PyTuple [Tns (F := framework) x; Tns (F := framework) y]), w)
  | ApplyTfm k x => (inr (shift k x), w)
  | TensorTo t _ => (inr t, w)
  | ModuleTo m _ => (inr m, w)
  | View x _ => (inr x, w)
  | Size _ _ => (inr 1, w)
  | NewDataLoader _ _ => (inr [[1; 1]; [2; 4]], w)
  | New spec => (inr (build spec), w)
  | Parameters _ => (inr tt, w)
  | NewOptimizer _ _ _ => (inr tt, w)
  end.

Definition runtime (bad : option Z) : Runtime (F := framework) :=
  {| World := world; fw := handler bad |}.

Definition w0 : world := mkWorld 1 0 false [].

Definition s0 (bad : option Z) : St (R := runtime bad) :=
  mkSt (R := runtime bad) w0 true ∅ [].

End Toy.

(** Inputs for the small framework. *)

Module ToyData.
Import Toy.

Definition net : Model (Framework := framework) := LReLU.
Definition sgd : Optimizer (Framework := framework) := tt.
Definition mse : LossFunction (Framework := framework) := tt.
Definition two_batches : DataLoader (Framework := framework) := [[1; 2]; [3; 4]].
Definition no_batches : DataLoader (Framework := framework) := [].
Definition samples : Dataset (Framework := framework) := [(1, 2); (3, 4)].
Definition plus_ten : Transform (Framework := framework) := 10.
Definition tns (z : Z) : Tensors (F := framework) := Tns (F := framework) z.
Definition x1 : Tensors (F := framework) := tns 1.
Definition y2 : Tensors (F := framework) := tns 2.
Definition tensor (z : Z) : Tensor (Framework := framework) := z.
Definition float (q : Q) : Float (Framework := framework) := q.
Definition nested : Tensors (F := framework) := PyTuple [tns 1; PyList [tns 2; tns 3]].

(** The start state after [DatasetTfm(samples, plus_ten)], and after
    [DeviceDataLoader(two_batches, None)]; each object is at the first
    location. *)
Definition with_dataset : St (R := runtime None) :=
  snd (DatasetTfm_init (R := runtime None) samples (Some plus_ten) (s0 None)).
Definition with_loader : St (R := runtime None) :=
  snd (DeviceDataLoader_init (R := runtime None) two_batches None (s0 None)).
Definition first : loc := 1%positive.

End ToyData.

(** ** Vocabulary of the statements *)

Section Vocabulary.
Context {F : Framework} {R : Runtime}.

(** No call into the framework raises. *)
Definition never_raises : Prop :=
  forall (c : Call) (g : bool) (w : World), exists r, fst (fw c g w) = inr r.

(** From [s] to [s'] the events [evs] were added to the trace, and the
    autograd mode and the objects are as they were. *)
Definition extends (s : St) (evs : list Event) (s' : St) : Prop :=
  trace s' = trace s ++ evs /\
  grad_enabled s' = grad_enabled s /\ heap s' = heap s.

(** [m], started in [s], returns [a] in [s'], having added [evs] to the
    trace. *)
Definition returns {A} (m : M A) (s : St) (a : A) (evs : list Event) (s' : St) : Prop :=
  m s = (inr a, s') /\ extends s evs s'.

(** A value after list-wrapping: itself in a one-item list unless it is
    already a tuple or a list. *)
Definition listed (x : Tensors) : list Tensors :=
  match x with
  | Tns _ => [x]
  | PyTuple os | PyList os => os
  end.

(** A batch that is a pair [(xb, yb)], as a tuple or a list. *)
Definition pair_of (b : Tensors) : option (Tensors * Tensors) :=
  match b with
  | PyTuple [xb; yb] | PyList [xb; yb] => Some (xb, yb)
  | _ => None
  end.

(** The events of one [loss_batch] with an optimizer that returns: forward
    pass, loss, backward pass, optimizer step, zero-gradient reset, and the
    reading of the scalar. *)
Definition train_step (model : Model) (loss_fn : LossFunction) (opt : Optimizer)
    (g : bool) (xb yb : Tensors) (out loss : Tensor) (v : Float) : list Event :=
  [ Called (Forward model (listed xb)) g (inr out);
    Called (LossFn loss_fn out (listed yb)) g (inr loss);
    Called (Backward loss) g (inr tt);
    Called (OptStep opt) g (inr tt);
    Called (ZeroGrad opt) g (inr tt);
    Called (Item loss) g (inr v) ].

(** The events of one [loss_batch] without optimizer that returns. *)
Definition eval_step (model : Model) (loss_fn : LossFunction)
    (g : bool) (xb yb : Tensors) (out loss : Tensor) (v : Float) : list Event :=
  [ Called (Forward model (listed xb)) g (inr out);
    Called (LossFn loss_fn out (listed yb)) g (inr loss);
    Called (Item loss) g (inr v) ].

(** The events of the training loop over the batches [bs], in order. *)
Inductive train_phase (model : Model) (loss_fn : LossFunction) (opt : Optimizer) (g : bool)
  : list Tensors -> list Event -> Prop :=
| train_phase_nil : train_phase model loss_fn opt g [] []
| train_phase_cons b xb yb out loss v bs evs :
    pair_of b = Some (xb, yb) ->
    train_phase model loss_fn opt g bs evs ->
    train_phase model loss_fn opt g (b :: bs)
      (train_step model loss_fn opt g xb yb out loss v ++ evs).

(** The events of the validation loop over the batches [bs], in order, with
    the pair each [loss_batch] returned.  [P] is a condition on the targets. *)
Inductive valid_phase (P : Tensors -> Prop) (model : Model) (loss_fn : LossFunction)
  : list Tensors -> list Event -> list (Float * Z) -> Prop :=
| valid_phase_nil : valid_phase P model loss_fn [] [] []
| valid_phase_cons b xb yb out loss v bs evs rs :
    pair_of b = Some (xb, yb) ->
    P yb ->
    valid_phase P model loss_fn bs evs rs ->
    valid_phase P model loss_fn (b :: bs)
      (eval_step model loss_fn false xb yb out loss v ++ evs)
      ((v, Z.of_nat (length (listed yb))) :: rs).

(** [sum(losses*nums)/sum(nums)] over the per-batch results. *)
Definition weighted_mean (rs : list (Float * Z)) : Float :=
  fdiv (np_sum (map (fun r => fmul (fst r) (of_int (snd r))) rs))
       (of_int (foldr Z.add 0 (map snd rs))).

(** The unweighted mean of the per-batch losses. *)
Definition plain_mean (rs : list (Float * Z)) : Float :=
  fdiv (np_sum (map fst rs)) (of_int (Z.of_nat (length rs))).

(** The events of one epoch of [fit] that runs to its end; [agg] is the
    value printed as a function of the validation results. *)
Inductive epoch_events (agg : list (Float * Z) -> Float) (P : Tensors -> Prop)
    (model : Model) (loss_fn : LossFunction) (opt : Optimizer)
    (train_dl valid_dl : DataLoader) (g : bool) (epoch : Z) : list Event -> Prop :=
| epoch_events_intro tbs tevs vbs vevs rs :
    train_phase model loss_fn opt g tbs tevs ->
    valid_phase P model loss_fn vbs vevs rs ->
    epoch_events agg P model loss_fn opt train_dl valid_dl g epoch
      ([ Called (Train model) g (inr tt);
         Called (Iterate train_dl) g (inr tbs) ] ++ tevs ++
       [ Called (Eval model) g (inr tt);
         NoGradEnter;
         Called (Iterate valid_dl) false (inr vbs) ] ++ vevs ++
       [ NoGradExit;
         Called (Print epoch (agg rs)) g (inr tt) ]).

(** Every traversal of [dl] yields batches that are pairs whose target
    satisfies [P]; every traversal of [dl] yields at least one batch. *)
Definition yields_pairs (P : Tensors -> Prop) (dl : DataLoader) : Prop :=
  forall g w bs, fst (fw (Iterate dl) g w) = inr bs ->
    Forall (fun b => exists xb yb, pair_of b = Some (xb, yb) /\ P yb) bs.

Definition yields_some (dl : DataLoader) : Prop :=
  forall g w, fst (fw (Iterate dl) g w) <> inr [].

(** The calls [loss_batch] makes when it is given no optimizer. *)
Definition forward_or_loss (c : Call) : Prop :=
  match c with
  | Forward _ _ | LossFn _ _ _ | Item _ => True
  | _ => False
  end.

(** *** Failures *)

(** The exception of a call that raised. *)
Definition raised (ev : Event) : option Exn :=
  match ev with
  | Called _ _ (inl e) => Some e
  | _ => None
  end.

Definition is_call (ev : Event) : Prop :=
  match ev with
  | Called _ _ _ => True
  | _ => False
  end.

(** No call among [evs] raised. *)
Definition quiet (evs : list Event) : Prop := Forall (fun ev => raised ev = None) evs.

(** The number of [torch.no_grad()] blocks entered and not left. *)
Definition depth (evs : list Event) : Z :=
  foldr (fun ev d => match ev with
                     | NoGradEnter => d + 1
                     | NoGradExit => d - 1
                     | Called _ _ _ => d
                     end) 0 evs.

(** A run that makes calls only: either no call raised, or the call that
    raised is the last event and its exception is the outcome. *)
Inductive stops_at_failure {A} : Exn + A -> list Event -> Prop :=
| stops_quiet r evs :
    quiet evs -> stops_at_failure r evs
| stops_failed e pre c g :
    quiet pre -> stops_at_failure (inl e) (pre ++ [Called c g (inl e)]).

Definition strict {A} (m : M A) : Prop :=
  forall s, exists evs,
    trace (snd (m s)) = trace s ++ evs /\
    Forall is_call evs /\
    stops_at_failure (fst (m s)) evs.

(** The same with [torch.no_grad()] blocks: after the call that raised, the
    blocks open at that point are left, and nothing else happens. *)
Inductive unwinds {A} : Exn + A -> list Event -> Prop :=
| unwinds_quiet r evs :
    quiet evs -> depth evs = 0 -> unwinds r evs
| unwinds_failed e pre c g :
    quiet pre -> 0 <= depth pre ->
    unwinds (inl e)
      (pre ++ [Called c g (inl e)] ++ repeat NoGradExit (Z.to_nat (depth pre))).

Definition propagates {A} (m : M A) : Prop :=
  forall s, exists evs,
    trace (snd (m s)) = trace s ++ evs /\ unwinds (fst (m s)) evs.

(** *** Objects *)

(** A computation that leaves the objects of the notebook as they are. *)
Definition keeps_heap {A} (m : M A) : Prop :=
  forall s, heap (snd (m s)) = heap s.

(** The fields an object was declared with: all of it, but for the [gen]
    attribute of a [DeviceDataLoader]. *)
Definition declared (o : Obj) : Obj :=
  match o with
  | ODeviceDataLoader d =>
    ODeviceDataLoader (mkDeviceDataLoader (self_dl d) (self_device d) None)
  | _ => o
  end.

(** The [device] field of the [DeviceDataLoader] at [self]. *)
Definition device_of (self : loc) (s : St) : option (option Device) :=
  match heap s !! self with
  | Some (ODeviceDataLoader o) => Some (self_device o)
  | _ => None
  end.

(** The batches [bs], each moved by [to_device] to [d], one after the
    other. *)
Definition moved_batches (d : option Device) (bs : list Tensors) : M (list Tensors) :=
  comprehension_of (fun b => to_device b d) bs.

(** *** Building a network *)

(** The events of one convolution-plus-ReLU block: the convolution with
    padding [ks // 2] and no bias, the ReLU, and the [nn.Sequential] of the
    two. *)
Definition block_events (g : bool) (ni nf ks stride : Z) (conv relu block : Model)
    : list Event :=
  [ Called (New (nn_Conv2d ni nf ks stride (ks / 2) false)) g (inr conv);
    Called (New nn_ReLU) g (inr relu);
    Called (New (nn_Sequential [conv; relu])) g (inr block) ].

(** The blocks built for the indices from [i] on, with their events: the
    block at index [i] takes [actns[i]] channels to [actns[i+1]] with kernel
    size [kernel_szs[i]] and stride [strides[i]]. *)
Inductive blocks_built (g : bool) (actns kernel_szs strides : list Z)
  : nat -> list Model -> list Event -> Prop :=
| blocks_built_nil i : blocks_built g actns kernel_szs strides i [] []
| blocks_built_cons i ni nf ks stride conv relu block blocks evs :
    actns !! i = Some ni ->
    actns !! S i = Some nf ->
    kernel_szs !! i = Some ks ->
    strides !! i = Some stride ->
    blocks_built g actns kernel_szs strides (S i) blocks evs ->
    blocks_built g actns kernel_szs strides i (block :: blocks)
      (block_events g ni nf ks stride conv relu block ++ evs).

(** *** Moving to a device *)

(** The tensors of a value, left to right. *)
Fixpoint leaves (b : Tensors) : list Tensor :=
  match b with
  | Tns t => [t]
  | PyTuple os | PyList os => flat_map leaves os
  end.

(** [r] has the shape of [b], with a list wherever [b] has a tuple or a
    list. *)
#[warnings="-register-all"]
Inductive listified : Tensors -> Tensors -> Prop :=
| listified_tensor t t' : listified (Tns t) (Tns t')
| listified_tuple os rs : Forall2 listified os rs -> listified (PyTuple os) (PyList rs)
| listified_list os rs : Forall2 listified os rs -> listified (PyList os) (PyList rs).

(** The events of moving the tensors [ts] to [d], one after the other, with
    [ts'] what the calls returned. *)
Definition moves (d : Device) (g : bool) (ts ts' : list Tensor) : list Event :=
  zip_with (fun t t' => Called (TensorTo t d) g (inr t')) ts ts'.

End Vocabulary.

(** ** More vocabulary *)

Section Effects.
Context {F : Framework} {R : Runtime}.

(** A computation that leaves the autograd mode as it found it, whether it
    returns or raises. *)
Definition keeps_grad {A} (m : M A) : Prop :=
  forall s, grad_enabled (snd (m s)) = grad_enabled s.

(** The calls that change the parameters or their gradients. *)
Definition trains (c : Call) : bool :=
  match c with
  | Backward _ | OptStep _ | ZeroGrad _ => true
  | _ => false
  end.

(** The number of calls among [evs] that satisfy [p]. *)
Definition count_calls (p : Call -> bool) (evs : list Event) : nat :=
  length (List.filter (fun ev => match ev with
                                 | Called c _ _ => p c
                                 | _ => false
                                 end) evs).

(** An event that is not a training call made under another autograd mode
    than [g]. *)
Definition at_mode (g : bool) (ev : Event) : Prop :=
  match ev with
  | Called c g' _ => trains c = true -> g' = g
  | _ => True
  end.

(** A call that is not a training call. *)
Definition not_training (g : bool) (ev : Event) : Prop :=
  match ev with
  | Called c _ _ => trains c = false
  | _ => False
  end.

(** Whatever its outcome, [m] adds to the trace events that satisfy [Q] at
    the autograd mode it was started in, and leaves that mode as it was. *)
Definition runs (Q : bool -> Event -> Prop) {A} (m : M A) : Prop :=
  forall s, exists evs,
    trace (snd (m s)) = trace s ++ evs /\
    grad_enabled (snd (m s)) = grad_enabled s /\
    Forall (Q (grad_enabled s)) evs.

(** A computation that changes no declared field of any object and
    allocates nothing: only the [gen] attribute of a [DeviceDataLoader] may
    differ afterwards. *)
Definition keeps_declared {A} (m : M A) : Prop :=
  forall s r, declared <$> (heap (snd (m s)) !! r) = declared <$> (heap s !! r).

(** From [s] to [s'] the events [evs] were added to the trace, the autograd
    mode is as it was, and so is every declared field of every object. *)
Definition advances (s : St) (evs : list Event) (s' : St) : Prop :=
  trace s' = trace s ++ evs /\
  grad_enabled s' = grad_enabled s /\
  forall r, declared <$> (heap s' !! r) = declared <$> (heap s !! r).

(** The object at [self] is a [DeviceDataLoader] with the [dl] and the
    [device] of [o], whatever its [gen]. *)
Definition bound (self : loc) (o : DeviceDataLoader) (s : St) : Prop :=
  declared <$> (heap s !! self) =
  Some (ODeviceDataLoader (mkDeviceDataLoader (self_dl o) (self_device o) None)).

(** The events of the training loop over the batches [bs] of a
    [DeviceDataLoader] bound to [d]: each batch is moved to [d] when the
    loop asks for it, and trained on before the next one is moved. *)
Inductive moved_train_phase (d : Device) (model : Model) (loss_fn : LossFunction)
    (opt : Optimizer) (g : bool) : list Tensors -> list Event -> Prop :=
| moved_train_nil : moved_train_phase d model loss_fn opt g [] []
| moved_train_cons b r xb yb out loss v bs evs :
    listified b r ->
    length (leaves r) = length (leaves b) ->
    pair_of r = Some (xb, yb) ->
    moved_train_phase d model loss_fn opt g bs evs ->
    moved_train_phase d model loss_fn opt g (b :: bs)
      (moves d g (leaves b) (leaves r) ++
       train_step model loss_fn opt g xb yb out loss v ++ evs).

(** The same for the validation loop, which runs with the autograd mode
    off, with the pair each [loss_batch] returned. *)
Inductive moved_valid_phase (d : Device) (model : Model) (loss_fn : LossFunction)
  : list Tensors -> list Event -> list (Float * Z) -> Prop :=
| moved_valid_nil : moved_valid_phase d model loss_fn [] [] []
| moved_valid_cons b r xb yb out loss v bs evs rs :
    listified b r ->
    length (leaves r) = length (leaves b) ->
    pair_of r = Some (xb, yb) ->
    moved_valid_phase d model loss_fn bs evs rs ->
    moved_valid_phase d model loss_fn (b :: bs)
      (moves d false (leaves b) (leaves r) ++
       eval_step model loss_fn false xb yb out loss v ++ evs)
      ((v, Z.of_nat (length (listed yb))) :: rs).

(** The events of one epoch of [fit] over two [DeviceDataLoader]s, around
    the loaders [train_dl] and [valid_dl] and bound to [td] and [vd]. *)
Inductive device_epoch_events (model : Model) (loss_fn : LossFunction) (opt : Optimizer)
    (train_dl valid_dl : DataLoader) (td vd : Device) (g : bool) (epoch : Z)
  : list Event -> Prop :=
| device_epoch_events_intro tbs tevs vbs vevs rs :
    moved_train_phase td model loss_fn opt g tbs tevs ->
    moved_valid_phase vd model loss_fn vbs vevs rs ->
    device_epoch_events model loss_fn opt train_dl valid_dl td vd g epoch
      ([ Called (Train model) g (inr tt);
         Called (Iterate train_dl) g (inr tbs) ] ++ tevs ++
       [ Called (Eval model) g (inr tt);
         NoGradEnter;
         Called (Iterate valid_dl) false (inr vbs) ] ++ vevs ++
       [ NoGradExit;
         Called (Print epoch (weighted_mean rs)) g (inr tt) ]).

End Effects.


(** More inputs for the small framework, and a variant of it whose datasets
    hold triples. *)

Module ToyEdges.
Import Toy ToyData.

Definition three_items : DataLoader (Framework := framework) := [[1; 2; 3]].

Definition shuffled : list (string * Arg) := [("shuffle"%string, ABool false)].

Definition sgd_factory : OptFactory (Framework := framework) := tt.
Definition no_params : Params (Framework := framework) := tt.

(** The block [conv2d_relu(1, 16, 3, 2, bn=True)] builds. *)
Definition bn_block : Model (Framework := framework) :=
  LSequential [LConv2d 1 16 3 2 1 false; LReLU; LBatchNorm2d 16].

Definition triples_handler (c : Call (F := framework)) (g : bool) (w : world)
    : (Exn + resp c) * world :=
  match c return (Exn + resp c) * world with
  | DsGetItem ds idx => (inr (PyTuple [tns 1; tns 2; tns 3]), w)
  | c' => handler None c' g w
  end.

Definition triples : Runtime (F := framework) :=
  {| World := world; fw := triples_handler |}.

(** The start state with a [DatasetTfm] in the variant. *)
Definition with_triples : St (R := triples) :=
  snd (DatasetTfm_init (R := triples) samples None
         (mkSt (R := triples) w0 true ∅ [])).

(** The state after [DataBunch.create(samples, samples, bs=64,
    train_tfm=plus_ten)], whose fifth object is the [DataBunch], and after
    [Learner(data, net)] in it. *)
Definition with_bunch : St (R := runtime None) :=
  snd (DataBunch_create (R := runtime None) samples samples 64 (Some plus_ten) None None []
         (s0 None)).
Definition bunch : loc := 5%positive.
Definition with_learner : St (R := runtime None) :=
  snd (Learner_init (R := runtime None) bunch net with_bunch).
Definition learner : loc := 6%positive.

End ToyEdges.

(** ** Running computations *)

Section Running.
Context {F : Framework} {R : Runtime}.

Lemma bind_inr {A B} (m : M A) (k : A -> M B) s a s' :
  m s = (inr a, s') -> bind m k s = k a s'.
Proof. intros E. unfold bind. rewrite E. reflexivity. Qed.

Lemma bind_inl {A B} (m : M A) (k : A -> M B) s e s' :
  m s = (inl e, s') -> bind m k s = (inl e, s').
Proof. intros E. unfold bind. rewrite E. reflexivity. Qed.

Lemma call_run (c : Call) s :
  call c s =
  (fst (fw c (grad_enabled s) (world s)),
   mkSt (snd (fw c (grad_enabled s) (world s))) (grad_enabled s) (heap s)
        (trace s ++ [Called c (grad_enabled s) (fst (fw c (grad_enabled s) (world s)))])).
Proof. unfold call. destruct (fw c (grad_enabled s) (world s)); reflexivity. Qed.

Lemma returns_ret {A} (a : A) s : returns (ret a) s a [] s.
Proof. unfold returns, extends, ret. rewrite app_nil_r. auto. Qed.

Lemma returns_bind {A B} (m : M A) (k : A -> M B) s a e1 s1 b e2 s2 evs :
  returns m s a e1 s1 ->
  returns (k a) s1 b e2 s2 ->
  evs = e1 ++ e2 ->
  returns (bind m k) s b evs s2.
Proof.
  intros (E1 & T1 & G1 & H1) (E2 & T2 & G2 & H2) ->.
  unfold returns, extends. rewrite (bind_inr _ _ _ _ _ E1), E2, T2, T1, G2, G1, H2, H1.
  rewrite app_assoc. auto.
Qed.

Lemma returns_seq {A B} (m : M A) (k : A -> M B) s a e1 s1 b e2 s2 :
  returns m s a e1 s1 ->
  returns (k a) s1 b e2 s2 ->
  returns (bind m k) s b (e1 ++ e2) s2.
Proof. intros H1 H2. exact (returns_bind m k s a e1 s1 b e2 s2 _ H1 H2 eq_refl). Qed.

Lemma returns_eq {A} (m : M A) s a evs evs' s' :
  returns m s a evs s' -> evs = evs' -> returns m s a evs' s'.
Proof. intros Hr <-. exact Hr. Qed.

Lemma returns_call (c : Call) s :
  never_raises ->
  exists r s', returns (call c) s r [Called c (grad_enabled s) (inr r)] s'.
Proof.
  intros Hok. destruct (Hok c (grad_enabled s) (world s)) as [r Hr].
  unfold returns, extends, call.
  destruct (fw c (grad_enabled s) (world s)) as [r' w'] eqn:E.
  simpl in Hr. subst r'. eexists r, _. simpl. auto.
Qed.

(** A call whose answer is known. *)
Lemma returns_call_of (c : Call) s r :
  fst (fw c (grad_enabled s) (world s)) = inr r ->
  exists s', returns (call c) s r [Called c (grad_enabled s) (inr r)] s'.
Proof.
  intros Hr. unfold returns, extends, call.
  destruct (fw c (grad_enabled s) (world s)) as [r' w'] eqn:E.
  simpl in Hr. subst r'. eexists. simpl. auto.
Qed.

Lemma returns_grad {A} (m : M A) s a evs s' :
  returns m s a evs s' -> grad_enabled s' = grad_enabled s.
Proof. intros (_ & _ & G & _). exact G. Qed.

Lemma listed_wrap (x : Tensors) :
  items (if negb (is_listy x) then PyList [x] else x) = listed x.
Proof. destruct x; reflexivity. Qed.

(** [loss_batch] with an optimizer, when no call raises. *)
Lemma loss_batch_train model xb yb loss_fn opt s :
  never_raises ->
  exists out loss v s',
    returns (loss_batch model xb yb loss_fn (Some opt)) s
      (v, Z.of_nat (length (listed yb)))
      (train_step model loss_fn opt (grad_enabled s) xb yb out loss v) s'.
Proof.
  intros Hok. unfold loss_batch. rewrite !listed_wrap.
  destruct (returns_call (Forward model (listed xb)) s Hok) as (out & s1 & H1).
  destruct (returns_call (LossFn loss_fn out (listed yb)) s1 Hok) as (loss & s2 & H2).
  destruct (returns_call (Backward loss) s2 Hok) as ([] & s3 & H3).
  destruct (returns_call (OptStep opt) s3 Hok) as ([] & s4 & H4).
  destruct (returns_call (ZeroGrad opt) s4 Hok) as ([] & s5 & H5).
  destruct (returns_call (Item loss) s5 Hok) as (v & s6 & H6).
  rewrite (returns_grad _ _ _ _ _ H5) in H6.
  rewrite (returns_grad _ _ _ _ _ H4) in H5, H6.
  rewrite (returns_grad _ _ _ _ _ H3) in H4, H5, H6.
  rewrite (returns_grad _ _ _ _ _ H2) in H3, H4, H5, H6.
  rewrite (returns_grad _ _ _ _ _ H1) in H2, H3, H4, H5, H6.
  exists out, loss, v, s6.
  eapply returns_bind; [exact H1 | | reflexivity].
  eapply returns_bind; [exact H2 | | reflexivity].
  eapply returns_bind.
  - eapply returns_bind; [exact H3 | | reflexivity].
    eapply returns_bind; [exact H4 | exact H5 | reflexivity].
  - eapply returns_bind; [exact H6 | apply returns_ret | reflexivity].
  - reflexivity.
Qed.

(** [loss_batch] without optimizer, when no call raises. *)
Lemma loss_batch_eval model xb yb loss_fn s :
  never_raises ->
  exists out loss v s',
    returns (loss_batch model xb yb loss_fn None) s
      (v, Z.of_nat (length (listed yb)))
      (eval_step model loss_fn (grad_enabled s) xb yb out loss v) s'.
Proof.
  intros Hok. unfold loss_batch. rewrite !listed_wrap.
  destruct (returns_call (Forward model (listed xb)) s Hok) as (out & s1 & H1).
  destruct (returns_call (LossFn loss_fn out (listed yb)) s1 Hok) as (loss & s2 & H2).
  destruct (returns_call (Item loss) s2 Hok) as (v & s3 & H3).
  rewrite (returns_grad _ _ _ _ _ H2) in H3.
  rewrite (returns_grad _ _ _ _ _ H1) in H2, H3.
  exists out, loss, v, s3.
  eapply returns_bind; [exact H1 | | reflexivity].
  eapply returns_bind; [exact H2 | | reflexivity].
  eapply returns_bind; [apply returns_ret | | reflexivity].
  eapply returns_bind; [exact H3 | apply returns_ret | reflexivity].
Qed.

End Running.

(** ** The loops of [fit] *)

Section Loops.
Context {F : Framework} {R : Runtime}.

Lemma unpack2_pair b xb yb s :
  pair_of b = Some (xb, yb) -> returns (unpack2 b) s (xb, yb) [] s.
Proof.
  intros Hb.
  destruct b as [t | [| x [| y [| z os]]] | [| x [| y [| z os]]]];
    simpl in Hb; try discriminate; injection Hb as -> ->; apply returns_ret.
Qed.

Lemma unzip2_cons {A B} (r : A * B) rs s :
  returns (unzip2 (r :: rs)) s (map fst (r :: rs), map snd (r :: rs)) [] s.
Proof. apply returns_ret. Qed.

Lemma returns_iter (dl : DataLoader) s :
  never_raises ->
  exists bs s',
    fst (fw (Iterate dl) (grad_enabled s) (world s)) = inr bs /\
    returns (iter (ExtDL dl)) s (map ret bs)
      [Called (Iterate dl) (grad_enabled s) (inr bs)] s'.
Proof.
  intros Hok. destruct (Hok (Iterate dl) (grad_enabled s) (world s)) as [bs Hbs].
  destruct (returns_call_of (Iterate dl) s bs Hbs) as [s' Hs'].
  exists bs, s'. split; [exact Hbs |].
  unfold iter. eapply returns_bind; [exact Hs' | apply returns_ret | reflexivity].
Qed.

Lemma returns_with_no_grad {A} (body : M A) s a evs s1 :
  returns body (log NoGradEnter (set_grad_enabled false s)) a evs s1 ->
  returns (with_no_grad body) s a ([NoGradEnter] ++ evs ++ [NoGradExit])
    (log NoGradExit (set_grad_enabled (grad_enabled s) s1)).
Proof.
  intros (E & T & G & Hh). unfold returns, extends, with_no_grad. rewrite E. simpl.
  rewrite T, Hh. simpl. rewrite <- !app_assoc. auto.
Qed.

(** The training loop. *)
Lemma train_loop model loss_fn opt bs :
  never_raises ->
  Forall (fun b => exists xb yb, pair_of b = Some (xb, yb) /\ True) bs ->
  forall s, exists evs s',
    returns (for_ (map ret bs) (fun b =>
               '(xb, yb) <- unpack2 b;
               '(loss, _) <- loss_batch model xb yb loss_fn (Some opt);
               ret tt)) s tt evs s' /\
    train_phase model loss_fn opt (grad_enabled s) bs evs.
Proof.
  intros Hok Hbs. induction Hbs as [| b bs (xb & yb & Hb & _) _ IH]; intros s.
  - exists [], s. split; [apply returns_ret | constructor].
  - destruct (loss_batch_train model xb yb loss_fn opt s Hok) as (out & loss & v & s1 & H1).
    destruct (IH s1) as (evs & s2 & H2 & Hph).
    rewrite (returns_grad _ _ _ _ _ H1) in Hph.
    eexists _, s2. split.
    + simpl. eapply returns_bind; [apply returns_ret | | reflexivity].
      eapply returns_bind; [| exact H2 | reflexivity].
      eapply returns_bind; [apply unpack2_pair; exact Hb | | reflexivity].
      eapply returns_bind; [exact H1 | apply returns_ret | reflexivity].
    + exact (train_phase_cons model loss_fn opt _ b xb yb out loss v bs evs Hb Hph).
Qed.

(** The validation comprehension, run with the autograd mode off. *)
Lemma valid_loop (P : Tensors -> Prop) model loss_fn bs :
  never_raises ->
  Forall (fun b => exists xb yb, pair_of b = Some (xb, yb) /\ P yb) bs ->
  forall s, grad_enabled s = false -> exists evs rs s',
    returns (comprehension (map ret bs) (fun b =>
               '(xb, yb) <- unpack2 b;
               loss_batch model xb yb loss_fn None)) s rs evs s' /\
    valid_phase P model loss_fn bs evs rs.
Proof.
  intros Hok Hbs. induction Hbs as [| b bs (xb & yb & Hb & HP) _ IH]; intros s Hg.
  - exists [], [], s. split; [apply returns_ret | constructor].
  - destruct (loss_batch_eval model xb yb loss_fn s Hok) as (out & loss & v & s1 & H1).
    destruct (IH s1) as (evs & rs & s2 & H2 & Hph).
    { rewrite (returns_grad _ _ _ _ _ H1). exact Hg. }
    rewrite Hg in H1.
    eexists _, _, s2. split.
    + simpl. eapply returns_bind; [apply returns_ret | | reflexivity].
      eapply returns_bind; [| | reflexivity].
      * eapply returns_bind; [apply unpack2_pair; exact Hb | exact H1 | reflexivity].
      * eapply returns_bind; [exact H2 | apply returns_ret | reflexivity].
    + simpl. rewrite app_nil_r.
      exact (valid_phase_cons P model loss_fn b xb yb out loss v bs evs rs Hb HP Hph).
Qed.

Lemma np_multiply_unzip (rs : list (Float * Z)) :
  np_multiply (map fst rs) (map snd rs) =
  map (fun r => fmul (fst r) (of_int (snd r))) rs.
Proof. induction rs as [| r rs IH]; simpl; [reflexivity | f_equal; exact IH]. Qed.

(** The value [fit] prints is [sum(losses*nums)/sum(nums)]. *)
Lemma val_loss_weighted (rs : list (Float * Z)) :
  val_loss_of (map fst rs) (map snd rs) = weighted_mean rs.
Proof. unfold val_loss_of, weighted_mean. rewrite np_multiply_unzip. reflexivity. Qed.

Lemma valid_phase_length P model loss_fn bs evs rs :
  valid_phase P model loss_fn bs evs rs -> length rs = length bs.
Proof. induction 1; simpl; congruence. Qed.

(** [fit] over two framework loaders, when no call raises, every batch is a
    pair and the validation loader is not empty. *)
Lemma fit_runs (P : Tensors -> Prop) epochs model loss_fn opt train_dl valid_dl s :
  never_raises ->
  yields_pairs (fun _ => True) train_dl ->
  yields_pairs P valid_dl ->
  yields_some valid_dl ->
  exists segs s',
    returns (fit epochs model loss_fn opt (ExtDL train_dl) (ExtDL valid_dl)) s tt
      (concat segs) s' /\
    Forall2 (epoch_events weighted_mean P model loss_fn opt train_dl valid_dl (grad_enabled s))
      (range epochs) segs.
Proof.
  intros Hok Htr Hva Hne. unfold fit.
  generalize (range epochs) as es. intros es. revert s.
  induction es as [| epoch es IH]; intros s.
  - exists [], s. split; [apply returns_ret | constructor].
  - destruct (returns_call (Train model) s Hok) as ([] & s1 & H1).
    destruct (returns_iter train_dl s1 Hok) as (tbs & s2 & Htbs & H2).
    destruct (train_loop model loss_fn opt tbs Hok (Htr _ _ _ Htbs) s2)
      as (tevs & s3 & H3 & Htp).
    destruct (returns_call (Eval model) s3 Hok) as ([] & s4 & H4).
    destruct (returns_iter valid_dl (log NoGradEnter (set_grad_enabled false s4)) Hok)
      as (vbs & s5 & Hvbs & H5).
    destruct (valid_loop P model loss_fn vbs Hok (Hva _ _ _ Hvbs) s5)
      as (vevs & rs & s6 & H6 & Hvp).
    { rewrite (returns_grad _ _ _ _ _ H5). reflexivity. }
    assert (Hrs : rs <> []).
    { intros ->. apply valid_phase_length in Hvp. destruct vbs; [| discriminate].
      exact (Hne _ _ Hvbs). }
    destruct rs as [| r rs]; [congruence | clear Hrs].
    pose proof (returns_grad _ _ _ _ _ H1) as G1.
    pose proof (returns_grad _ _ _ _ _ H2) as G2.
    pose proof (returns_grad _ _ _ _ _ H3) as G3.
    pose proof (returns_grad _ _ _ _ _ H4) as G4.
    set (s7 := log NoGradExit (set_grad_enabled (grad_enabled s4) s6)).
    destruct (returns_call (Print epoch (weighted_mean (r :: rs))) s7 Hok) as ([] & s8 & H8).
    assert (G7 : grad_enabled s7 = grad_enabled s) by (simpl; congruence).
    destruct (IH s8) as (segs & s9 & H9 & Hsegs).
    rewrite (returns_grad _ _ _ _ _ H8), G7 in Hsegs.
    rewrite G7 in H8. rewrite G3, G2, G1 in H4. rewrite G1 in H2.
    rewrite G2, G1 in Htp. simpl in H5.
    pose proof (epoch_events_intro weighted_mean P model loss_fn opt train_dl valid_dl
                  (grad_enabled s) epoch tbs tevs vbs vevs (r :: rs) Htp Hvp) as Hev.
    eexists (_ :: segs), s9. split; [| constructor; [exact Hev | exact Hsegs]].
    eapply returns_eq.
    + simpl. eapply returns_seq; [apply returns_ret |].
      eapply returns_seq; [| exact H9].
      eapply returns_seq; [exact H1 |].
      eapply returns_seq; [exact H2 |].
      eapply returns_seq; [exact H3 |].
      eapply returns_seq; [exact H4 |].
      eapply returns_seq.
      * apply returns_with_no_grad.
        eapply returns_seq; [exact H5 |].
        eapply returns_seq; [exact H6 | apply unzip2_cons].
      * cbv beta iota. rewrite val_loss_weighted. exact H8.
    + simpl. rewrite !app_nil_r. rewrite <- !app_assoc. reflexivity.
Qed.

End Loops.

(** ** Runs that return

    What a run that returned must have done, whatever the framework. *)

Section Inverting.
Context {F : Framework} {R : Runtime}.

Lemma extends_refl s : extends s [] s.
Proof. unfold extends. rewrite app_nil_r. auto. Qed.

Lemma extends_trans s e1 s1 e2 s2 :
  extends s e1 s1 -> extends s1 e2 s2 -> extends s (e1 ++ e2) s2.
Proof.
  intros (T1 & G1 & H1) (T2 & G2 & H2). unfold extends.
  rewrite T2, T1, G2, G1, H2, H1, app_assoc. auto.
Qed.

Lemma extends_grad s evs s' : extends s evs s' -> grad_enabled s' = grad_enabled s.
Proof. intros (_ & G & _). exact G. Qed.

Lemma extends_eq s evs evs' s' : extends s evs s' -> evs = evs' -> extends s evs' s'.
Proof. intros H <-. exact H. Qed.

Lemma bind_inv {A B} (m : M A) (k : A -> M B) s b s2 :
  bind m k s = (inr b, s2) ->
  exists a s1, m s = (inr a, s1) /\ k a s1 = (inr b, s2).
Proof. unfold bind. destruct (m s) as [[e | a] s1]; [discriminate | eauto]. Qed.

Lemma ret_inv {A} (a b : A) s s' : ret a s = (inr b, s') -> b = a /\ s' = s.
Proof. unfold ret. intros [= <- <-]. auto. Qed.

Lemma call_inv (c : Call) s r s' :
  call c s = (inr r, s') ->
  extends s [Called c (grad_enabled s) (inr r)] s' /\
  fst (fw c (grad_enabled s) (world s)) = inr r.
Proof.
  rewrite call_run. intros [= Hr <-]. rewrite Hr. unfold extends. simpl. auto.
Qed.

Ltac inv_call H :=
  match type of H with call ?c ?s = _ => apply (call_inv c s) in H end.

Lemma unpack2_inv b xb yb s p s' :
  pair_of b = Some (xb, yb) ->
  unpack2 b s = (inr p, s') -> p = (xb, yb) /\ s' = s.
Proof.
  intros Hb E. destruct (unpack2_pair b xb yb s Hb) as (E' & _).
  rewrite E' in E. injection E as <- <-. auto.
Qed.

Lemma unzip2_inv {A B} (rs : list (A * B)) s p s' :
  unzip2 rs s = (inr p, s') -> rs <> [] /\ p = (map fst rs, map snd rs) /\ s' = s.
Proof.
  destruct rs as [| r rs]; [discriminate |]. intros E. apply ret_inv in E as [-> ->].
  split; [discriminate | auto].
Qed.

Lemma with_no_grad_inv {A} (body : M A) s a s' :
  with_no_grad body s = (inr a, s') ->
  exists s1,
    body (log NoGradEnter (set_grad_enabled false s)) = (inr a, s1) /\
    s' = log NoGradExit (set_grad_enabled (grad_enabled s) s1).
Proof.
  unfold with_no_grad.
  destruct (body (log NoGradEnter (set_grad_enabled false s))) as [r s1].
  intros [= -> <-]. eauto.
Qed.

Lemma iter_inv (dl : DataLoader) s it s' :
  iter (ExtDL dl) s = (inr it, s') ->
  exists bs,
    it = map ret bs /\
    fst (fw (Iterate dl) (grad_enabled s) (world s)) = inr bs /\
    extends s [Called (Iterate dl) (grad_enabled s) (inr bs)] s'.
Proof.
  simpl. intros E. apply bind_inv in E as (bs & s1 & E1 & E).
  apply ret_inv in E as [-> ->]. inv_call E1; destruct E1 as [X1 Hbs]. eauto.
Qed.

(** [loss_batch] with an optimizer. *)
Lemma loss_batch_train_inv model xb yb loss_fn opt s res s' :
  loss_batch model xb yb loss_fn (Some opt) s = (inr res, s') ->
  exists out loss v,
    res = (v, Z.of_nat (length (listed yb))) /\
    extends s (train_step model loss_fn opt (grad_enabled s) xb yb out loss v) s'.
Proof.
  intros E. unfold loss_batch in E. rewrite !listed_wrap in E.
  apply bind_inv in E as (out & s1 & E1 & E).
  apply bind_inv in E as (loss & s2 & E2 & E).
  apply bind_inv in E as (u & s5 & E345 & E).
  apply bind_inv in E345 as (u3 & s3 & E3 & E45).
  apply bind_inv in E45 as (u4 & s4 & E4 & E5).
  apply bind_inv in E as (v & s6 & E6 & E).
  apply ret_inv in E as [-> ->].
  inv_call E1; destruct E1 as [X1 _]. inv_call E2; destruct E2 as [X2 _].
  inv_call E3; destruct E3 as [X3 _]. inv_call E4; destruct E4 as [X4 _].
  inv_call E5; destruct E5 as [X5 _]. inv_call E6; destruct E6 as [X6 _].
  destruct u, u3, u4.
  rewrite (extends_grad _ _ _ X5) in X6.
  rewrite (extends_grad _ _ _ X4) in X5, X6.
  rewrite (extends_grad _ _ _ X3) in X4, X5, X6.
  rewrite (extends_grad _ _ _ X2) in X3, X4, X5, X6.
  rewrite (extends_grad _ _ _ X1) in X2, X3, X4, X5, X6.
  exists out, loss, v. split; [reflexivity |].
  exact (extends_trans _ _ _ _ _ X1
           (extends_trans _ _ _ _ _ X2
              (extends_trans _ _ _ _ _ X3
                 (extends_trans _ _ _ _ _ X4 (extends_trans _ _ _ _ _ X5 X6))))).
Qed.

(** [loss_batch] without optimizer. *)
Lemma loss_batch_eval_inv model xb yb loss_fn s res s' :
  loss_batch model xb yb loss_fn None s = (inr res, s') ->
  exists out loss v,
    res = (v, Z.of_nat (length (listed yb))) /\
    extends s (eval_step model loss_fn (grad_enabled s) xb yb out loss v) s'.
Proof.
  intros E. unfold loss_batch in E. rewrite !listed_wrap in E.
  apply bind_inv in E as (out & s1 & E1 & E).
  apply bind_inv in E as (loss & s2 & E2 & E).
  apply bind_inv in E as (u & s3 & E3 & E).
  apply ret_inv in E3 as [-> ->].
  apply bind_inv in E as (v & s4 & E4 & E).
  apply ret_inv in E as [-> ->].
  inv_call E1; destruct E1 as [X1 _]. inv_call E2; destruct E2 as [X2 _].
  inv_call E4; destruct E4 as [X4 _].
  rewrite (extends_grad _ _ _ X2) in X4.
  rewrite (extends_grad _ _ _ X1) in X2, X4.
  exists out, loss, v. split; [reflexivity |].
  exact (extends_trans _ _ _ _ _ X1 (extends_trans _ _ _ _ _ X2 X4)).
Qed.

(** The training loop. *)
Lemma train_loop_inv model loss_fn opt bs :
  Forall (fun b => exists xb yb, pair_of b = Some (xb, yb) /\ True) bs ->
  forall s s',
    for_ (map ret bs) (fun b =>
      '(xb, yb) <- unpack2 b;
      '(loss, _) <- loss_batch model xb yb loss_fn (Some opt);
      ret tt) s = (inr tt, s') ->
    exists evs,
      extends s evs s' /\ train_phase model loss_fn opt (grad_enabled s) bs evs.
Proof.
  induction 1 as [| b bs (xb & yb & Hb & _) _ IH]; intros s s' E; simpl in E.
  - apply ret_inv in E as [_ ->]. exists []. split; [apply extends_refl | constructor].
  - apply bind_inv in E as (b' & s0 & E0 & E). apply ret_inv in E0 as [-> ->].
    apply bind_inv in E as (u & s3 & Ebody & E).
    apply bind_inv in Ebody as (p & s1 & Eun & Ebody).
    apply (unpack2_inv b xb yb) in Eun as [-> ->]; [| exact Hb].
    apply bind_inv in Ebody as ([loss n] & s2 & Elb & Ebody).
    apply ret_inv in Ebody as [-> ->].
    apply loss_batch_train_inv in Elb as (out & l & v & _ & X1).
    apply IH in E as (evs & X2 & Hph).
    rewrite (extends_grad _ _ _ X1) in Hph.
    eexists. split; [exact (extends_trans _ _ _ _ _ X1 X2) |].
    econstructor; eassumption.
Qed.

(** The validation comprehension, run with the autograd mode off. *)
Lemma valid_loop_inv (P : Tensors -> Prop) model loss_fn bs :
  Forall (fun b => exists xb yb, pair_of b = Some (xb, yb) /\ P yb) bs ->
  forall s rs s',
    grad_enabled s = false ->
    comprehension (map ret bs) (fun b =>
      '(xb, yb) <- unpack2 b;
      loss_batch model xb yb loss_fn None) s = (inr rs, s') ->
    exists evs,
      extends s evs s' /\ valid_phase P model loss_fn bs evs rs.
Proof.
  induction 1 as [| b bs (xb & yb & Hb & HP) _ IH]; intros s rs s' Hg E; simpl in E.
  - apply ret_inv in E as [-> ->]. exists []. split; [apply extends_refl | constructor].
  - apply bind_inv in E as (b' & s0 & E0 & E). apply ret_inv in E0 as [-> ->].
    apply bind_inv in E as (r & s2 & Ebody & E).
    apply bind_inv in Ebody as (p & s1 & Eun & Ebody).
    apply (unpack2_inv b xb yb) in Eun as [-> ->]; [| exact Hb].
    apply loss_batch_eval_inv in Ebody as (out & l & v & -> & X1).
    apply bind_inv in E as (rs' & s3 & Erest & E).
    apply ret_inv in E as [-> ->].
    apply IH in Erest as (evs & X2 & Hph);
      [| rewrite (extends_grad _ _ _ X1); exact Hg].
    rewrite Hg in X1.
    eexists. split; [exact (extends_trans _ _ _ _ _ X1 X2) |].
    econstructor; eassumption.
Qed.

(** [fit] over two framework loaders whose batches are pairs: when it
    returns, its events are those of one epoch after the other. *)
Lemma fit_returned (P : Tensors -> Prop) epochs model loss_fn opt train_dl valid_dl :
  yields_pairs (fun _ => True) train_dl ->
  yields_pairs P valid_dl ->
  forall s s',
    fit epochs model loss_fn opt (ExtDL train_dl) (ExtDL valid_dl) s = (inr tt, s') ->
    exists segs,
      extends s (concat segs) s' /\
      Forall2 (epoch_events weighted_mean P model loss_fn opt train_dl valid_dl
                 (grad_enabled s))
        (range epochs) segs.
Proof.
  intros Htr Hva. unfold fit. generalize (range epochs) as es.
  induction es as [| epoch es IH]; intros s s' E; simpl in E.
  - apply ret_inv in E as [_ ->]. exists []. split; [apply extends_refl | constructor].
  - apply bind_inv in E as (e' & s0 & E0 & E). apply ret_inv in E0 as [-> ->].
    apply bind_inv in E as (u & s8 & Ebody & E).
    apply bind_inv in Ebody as (u1 & s1 & E1 & Ebody).
    apply bind_inv in Ebody as (it & s2 & E2 & Ebody).
    apply bind_inv in Ebody as (u3 & s3 & E3 & Ebody).
    apply bind_inv in Ebody as (u4 & s4 & E4 & Ebody).
    apply bind_inv in Ebody as ([losses nums] & s7 & Eng & E8).
    apply with_no_grad_inv in Eng as (s6 & Eng & ->).
    apply bind_inv in Eng as (vit & s5 & E5 & Eng).
    apply bind_inv in Eng as (rs & s6' & E6 & Eun).
    apply unzip2_inv in Eun as (Hrs & [= -> ->] & ->).
    destruct u, u1, u3, u4.
    inv_call E1; destruct E1 as [X1 _].
    apply iter_inv in E2 as (tbs & -> & Htbs & X2).
    apply (train_loop_inv model loss_fn opt tbs (Htr _ _ _ Htbs)) in E3 as (tevs & X3 & Htp).
    inv_call E4; destruct E4 as [X4 _].
    apply iter_inv in E5 as (vbs & -> & Hvbs & X5).
    apply (valid_loop_inv P model loss_fn vbs (Hva _ _ _ Hvbs)) in E6 as (vevs & X6 & Hvp);
      [| rewrite (extends_grad _ _ _ X5); reflexivity].
    inv_call E8; destruct E8 as [X8 _].
    apply IH in E as (segs & X9 & Hsegs).
    pose proof (extends_grad _ _ _ X1) as G1.
    pose proof (extends_grad _ _ _ X2) as G2.
    pose proof (extends_grad _ _ _ X3) as G3.
    pose proof (extends_grad _ _ _ X4) as G4.
    assert (X7 : extends s4 ([NoGradEnter] ++
                   ([Called (Iterate valid_dl) false (inr vbs)] ++ vevs) ++ [NoGradExit])
                   (log NoGradExit (set_grad_enabled (grad_enabled s4) s6'))).
    { pose proof (extends_trans _ _ _ _ _ X5 X6) as (T & G & Hh).
      unfold extends. simpl in *. rewrite T, Hh. rewrite <- !app_assoc. auto. }
    rewrite val_loss_weighted in X8.
    set (s7 := log NoGradExit (set_grad_enabled (grad_enabled s4) s6')) in *.
    assert (G7 : grad_enabled s7 = grad_enabled s)
      by (rewrite (extends_grad _ _ _ X7); congruence).
    clearbody s7.
    rewrite G7 in X8. rewrite (extends_grad _ _ _ X8), G7 in Hsegs.
    rewrite G3, G2, G1 in X4. rewrite G2, G1 in Htp. rewrite G1 in X2.
    pose proof (epoch_events_intro weighted_mean P model loss_fn opt train_dl valid_dl
                  (grad_enabled s) epoch tbs tevs vbs vevs rs Htp Hvp) as Hev.
    eexists (_ :: segs). split; [| constructor; [exact Hev | exact Hsegs]].
    eapply extends_eq.
    + exact (extends_trans _ _ _ _ _ X1
               (extends_trans _ _ _ _ _ X2
                  (extends_trans _ _ _ _ _ X3
                     (extends_trans _ _ _ _ _ X4
                        (extends_trans _ _ _ _ _ X7
                           (extends_trans _ _ _ _ _ X8 X9)))))).
    + simpl. rewrite <- !app_assoc. simpl. rewrite <- ?app_assoc. reflexivity.
Qed.

End Inverting.

Ltac inv_call H :=
  match type of H with call ?c ?s = _ => apply (call_inv c s) in H end.

(** ** [loss_batch] and [fit] *)

Section Training.
Context {F : Framework} {R : Runtime}.

Ltac named_call :=
  match goal with
  | |- exists c g r, Called ?c0 ?g0 ?r0 = Called c g r /\ _ =>
    exists c0, g0, r0; split; [reflexivity | exact I]
  end.



End Training.

Section Epochs.
Context {F : Framework} {R : Runtime}.

Lemma range_length (n : Z) : 0 <= n -> Z.of_nat (length (range n)) = n.
Proof. intros Hn. unfold range. rewrite length_map, length_seq. lia. Qed.

Lemma Forall2_same_length {A B} (P : A -> B -> Prop) l k :
  Forall2 P l k -> length k = length l.
Proof. induction 1; simpl; congruence. Qed.


Lemma valid_phase_ones model loss_fn bs evs rs :
  valid_phase (fun yb => is_listy yb = false) model loss_fn bs evs rs ->
  Forall (fun r => snd r = 1) rs.
Proof.
  induction 1 as [| b xb yb out loss v bs evs rs _ Hyb _ IH]; constructor; [| exact IH].
  destruct yb; [reflexivity | discriminate | discriminate].
Qed.

Lemma weighted_mean_ones (rs : list (Float * Z)) :
  (forall x, fmul x (of_int 1) = x) ->
  Forall (fun r => snd r = 1) rs ->
  weighted_mean rs = plain_mean rs.
Proof.
  intros Hone Hrs. unfold weighted_mean, plain_mean.
  assert (E1 : map (fun r => fmul (fst r) (of_int (snd r))) rs = map fst rs).
  { induction Hrs as [| [l n] rs Hn _ IH]; simpl in *; [reflexivity |].
    subst n. rewrite Hone, IH. reflexivity. }
  assert (E2 : foldr Z.add 0 (map snd rs) = Z.of_nat (length rs)).
  { clear E1. induction Hrs as [| [l n] rs Hn _ IH]; simpl in *; [reflexivity |].
    subst n. rewrite IH. lia. }
  rewrite E1, E2. reflexivity.
Qed.

Lemma epoch_events_plain model loss_fn opt train_dl valid_dl g epoch evs :
  (forall x, fmul x (of_int 1) = x) ->
  epoch_events weighted_mean (fun yb => is_listy yb = false) model loss_fn opt
    train_dl valid_dl g epoch evs ->
  epoch_events plain_mean (fun yb => is_listy yb = false) model loss_fn opt
    train_dl valid_dl g epoch evs.
Proof.
  intros Hone Hev. destruct Hev as [tbs tevs vbs vevs rs Htp Hvp].
  rewrite (weighted_mean_ones rs Hone (valid_phase_ones _ _ _ _ _ Hvp)).
  constructor; assumption.
Qed.


End Epochs.

(** ** The small framework obeys the assumptions *)

Lemma toy_never_raises : never_raises (R := Toy.runtime None).
Proof.
  intros c g w. destruct c; simpl; eauto.
  - destruct args as [| [t | os | os] [| a args]]; simpl; eauto.
  - destruct targets as [| [t | os | os] [| a targets]]; simpl; eauto.
  - destruct (nth (Z.to_nat idx) ds (0, 0)); simpl; eauto.
Qed.

Lemma toy_fmul_one (x : Q) : Qmult x (inject_Z 1) = x.
Proof.
  destruct x as [n d]. unfold Qmult, inject_Z. simpl.
  rewrite Z.mul_1_r, Pos.mul_1_r. reflexivity.
Qed.

Lemma toy_yields_pairs bad :
  yields_pairs (R := Toy.runtime bad) (fun yb => is_listy yb = false) ToyData.two_batches.
Proof.
  intros g w bs Hbs. simpl in Hbs. injection Hbs as <-.
  repeat constructor; eexists _, _; (split; [reflexivity | reflexivity]).
Qed.

Lemma toy_yields_pairs_any bad :
  yields_pairs (R := Toy.runtime bad) (fun _ => True) ToyData.two_batches.
Proof.
  intros g w bs Hbs. simpl in Hbs. injection Hbs as <-.
  repeat constructor; eexists _, _; (split; [reflexivity | exact I]).
Qed.

Lemma toy_yields_some bad : yields_some (R := Toy.runtime bad) ToyData.two_batches.
Proof. intros g w. simpl. discriminate. Qed.

Lemma toy_yields_pairs_none bad :
  yields_pairs (R := Toy.runtime bad) (fun _ => True) ToyData.no_batches.
Proof. intros g w bs Hbs. simpl in Hbs. injection Hbs as <-. constructor. Qed.

Lemma toy_weight_kept (c : Call) g w :
  forward_or_loss c -> Toy.weight (snd (fw (Runtime := Toy.runtime None) c g w)) = Toy.weight w.
Proof.
  destruct c; simpl; try contradiction; intros _.
  - destruct args as [| [t | os | os] [| a args]]; reflexivity.
  - destruct targets as [| [t | os | os] [| a targets]]; reflexivity.
  - reflexivity.
Qed.

(** ** The statements on the small framework *)






(** ** Failures of the framework *)

Section Failures.
Context {F : Framework} {R : Runtime}.

Lemma Tensors_nested_ind (P : Tensors -> Prop) :
  (forall t, P (Tns t)) ->
  (forall os, Forall P os -> P (PyTuple os)) ->
  (forall os, Forall P os -> P (PyList os)) ->
  forall b, P b.
Proof.
  intros Ht Htuple Hlist. fix IH 1. intros [t | os | os].
  - apply Ht.
  - apply Htuple. induction os as [| o os IHos]; constructor; [apply IH | exact IHos].
  - apply Hlist. induction os as [| o os IHos]; constructor; [apply IH | exact IHos].
Qed.

Lemma quiet_app evs1 evs2 : quiet evs1 -> quiet evs2 -> quiet (evs1 ++ evs2).
Proof. unfold quiet. intros H1 H2. apply Forall_app. split; assumption. Qed.

Lemma depth_app evs1 evs2 : depth (evs1 ++ evs2) = depth evs1 + depth evs2.
Proof.
  induction evs1 as [| ev evs1 IH]; simpl; [reflexivity |].
  unfold depth in *. simpl. destruct ev; lia.
Qed.

Lemma depth_calls evs : Forall is_call evs -> depth evs = 0.
Proof.
  induction 1 as [| ev evs Hev _ IH]; [reflexivity |].
  unfold depth in *. simpl. destruct ev; [exact IH | contradiction | contradiction].
Qed.

(** *** Computations that only make calls *)

Lemma strict_ret {A} (a : A) : strict (ret a).
Proof.
  intros s. exists []. simpl. rewrite app_nil_r.
  split; [reflexivity |]. split; constructor. constructor.
Qed.

Lemma strict_raise {A} (e : Exn) : strict (raise (A := A) e).
Proof.
  intros s. exists []. simpl. rewrite app_nil_r.
  split; [reflexivity |]. split; constructor. constructor.
Qed.

Lemma strict_call (c : Call) : strict (call c).
Proof.
  intros s. rewrite call_run. cbn [fst snd trace].
  eexists. split; [reflexivity |]. split; [repeat constructor |].
  destruct (fst (fw c (grad_enabled s) (world s))) as [e | r].
  - apply (stops_failed e [] c (grad_enabled s)). constructor.
  - apply stops_quiet. repeat constructor.
Qed.

Lemma strict_bind {A B} (m : M A) (k : A -> M B) :
  strict m ->
  (forall s a s', m s = (inr a, s') -> strict (k a)) ->
  strict (bind m k).
Proof.
  intros Hm Hk s. destruct (Hm s) as (evs1 & T1 & C1 & O1). unfold bind.
  destruct (m s) as [[e | a] s1] eqn:E; cbn [fst snd] in *.
  - exists evs1. split; [exact T1 |]. split; [exact C1 |].
    inversion O1; subst; [apply stops_quiet | apply stops_failed]; assumption.
  - destruct (Hk s a s1 E s1) as (evs2 & T2 & C2 & O2).
    exists (evs1 ++ evs2). rewrite T2, T1, app_assoc.
    split; [reflexivity |]. split; [apply Forall_app; split; assumption |].
    assert (Q1 : quiet evs1) by (inversion O1; assumption).
    inversion O2; subst.
    + apply stops_quiet, quiet_app; assumption.
    + rewrite app_assoc. apply stops_failed, quiet_app; assumption.
Qed.

Lemma strict_silent {A} (m : M A) :
  (forall s, trace (snd (m s)) = trace s) -> strict m.
Proof.
  intros Hm s. exists []. rewrite app_nil_r.
  split; [apply Hm |]. split; constructor. constructor.
Qed.

Lemma strict_comprehension_of {A B} (f : A -> M B) (l : list A) :
  Forall (fun x => strict (f x)) l -> strict (comprehension_of f l).
Proof.
  induction 1 as [| x l Hx _ IH]; simpl; [apply strict_ret |].
  apply strict_bind; [exact Hx | intros _ y _ _].
  apply strict_bind; [exact IH | intros _ ys _ _]. apply strict_ret.
Qed.

End Failures.

Section Propagation.
Context {F : Framework} {R : Runtime}.

(** *** Computations with [torch.no_grad()] blocks *)

Lemma propagates_of_strict {A} (m : M A) : strict m -> propagates m.
Proof.
  intros Hm s. destruct (Hm s) as (evs & T & C & O). exists evs. split; [exact T |].
  inversion O as [r evs' Q | e pre c g Q]; subst.
  - apply unwinds_quiet; [exact Q | apply depth_calls, C].
  - apply Forall_app in C as [Cpre _].
    pose proof (unwinds_failed (A := A) e pre c g Q) as U.
    rewrite (depth_calls pre Cpre) in U. simpl in U. apply U. lia.
Qed.

Lemma propagates_bind {A B} (m : M A) (k : A -> M B) :
  propagates m ->
  (forall s a s', m s = (inr a, s') -> propagates (k a)) ->
  propagates (bind m k).
Proof.
  intros Hm Hk s. destruct (Hm s) as (evs1 & T1 & O1). unfold bind.
  destruct (m s) as [[e | a] s1] eqn:E; cbn [fst snd] in *.
  - exists evs1. split; [exact T1 |].
    inversion O1; subst; [apply unwinds_quiet | apply unwinds_failed]; assumption.
  - destruct (Hk s a s1 E s1) as (evs2 & T2 & O2).
    exists (evs1 ++ evs2). rewrite T2, T1, app_assoc. split; [reflexivity |].
    assert (Q1 : quiet evs1 /\ depth evs1 = 0) by (inversion O1; split; assumption).
    destruct Q1 as [Q1 D1].
    inversion O2 as [r evs' Q2 D2 | e pre c g Q2 D2]; subst.
    + apply unwinds_quiet; [apply quiet_app; assumption |].
      rewrite depth_app. lia.
    + pose proof (unwinds_failed (A := B) e (evs1 ++ pre) c g
                    (quiet_app _ _ Q1 Q2)) as U.
      rewrite depth_app, D1, Z.add_0_l, <- app_assoc in U. apply U, D2.
Qed.

Lemma propagates_with_no_grad {A} (body : M A) :
  propagates body -> propagates (with_no_grad body).
Proof.
  intros Hb s. unfold with_no_grad.
  destruct (Hb (log NoGradEnter (set_grad_enabled false s))) as (evs & T & O).
  destruct (body (log NoGradEnter (set_grad_enabled false s))) as [r s1].
  cbn [fst snd log set_grad_enabled trace] in *.
  exists ([NoGradEnter] ++ evs ++ [NoGradExit]). split.
  { rewrite T, <- !app_assoc. reflexivity. }
  inversion O as [r' evs' Q D | e pre c g Q D]; subst.
  - apply unwinds_quiet.
    + apply quiet_app; [repeat constructor |].
      apply quiet_app; [exact Q | repeat constructor].
    + rewrite !depth_app, D. reflexivity.
  - pose proof (unwinds_failed (A := A) e (NoGradEnter :: pre) c g) as U.
    assert (Dp : depth (NoGradEnter :: pre) = depth pre + 1) by reflexivity.
    rewrite Dp in U. replace (Z.to_nat (depth pre + 1)) with (S (Z.to_nat (depth pre))) in U by lia.
    simpl repeat in U. rewrite repeat_cons in U.
    simpl. simpl in U. rewrite <- !app_assoc. simpl. apply U; [| lia].
    constructor; [reflexivity | exact Q].
Qed.

Lemma propagates_for {A} (it : list (M A)) (body : A -> M unit) :
  Forall propagates it ->
  (forall a, propagates (body a)) ->
  propagates (for_ it body).
Proof.
  intros Hit Hbody. induction Hit as [| next it Hnext _ IH]; simpl.
  - apply propagates_of_strict, strict_ret.
  - apply propagates_bind; [exact Hnext | intros _ x _ _].
    apply propagates_bind; [apply Hbody | intros _ _ _ _]. exact IH.
Qed.

Lemma propagates_comprehension {A B} (it : list (M A)) (f : A -> M B) :
  Forall propagates it ->
  (forall a, propagates (f a)) ->
  propagates (comprehension it f).
Proof.
  intros Hit Hf. induction Hit as [| next it Hnext _ IH]; simpl.
  - apply propagates_of_strict, strict_ret.
  - apply propagates_bind; [exact Hnext | intros _ x _ _].
    apply propagates_bind; [apply Hf | intros _ y _ _].
    apply propagates_bind; [exact IH | intros _ ys _ _].
    apply propagates_of_strict, strict_ret.
Qed.

End Propagation.

Section Functions.
Context {F : Framework} {R : Runtime}.

Ltac silent :=
  apply strict_silent; intros ?;
  repeat match goal with
         | |- context [match ?x with _ => _ end] => destruct x
         end; reflexivity.

Ltac a_call :=
  match goal with |- strict (call ?c) => exact (strict_call c) end.

Ltac strictness :=
  repeat first
    [ apply strict_ret
    | apply strict_raise
    | a_call
    | apply strict_bind; [| intros ? ? ? _]
    | match goal with
      | |- strict (match ?x with _ => _ end) => destruct x
      | |- strict (if ?x then _ else _) => destruct x
      end ].

Lemma strict_get_DatasetTfm r : strict (get_DatasetTfm r).
Proof. unfold get_DatasetTfm, no_attribute, raise. silent. Qed.

Lemma strict_get_DeviceDataLoader r : strict (get_DeviceDataLoader r).
Proof. unfold get_DeviceDataLoader, no_attribute, raise. silent. Qed.

Lemma strict_get_DataBunch r : strict (get_DataBunch r).
Proof. unfold get_DataBunch, no_attribute, raise. silent. Qed.

Lemma strict_get_Learner r : strict (get_Learner r).
Proof. unfold get_Learner, no_attribute, raise. silent. Qed.

Lemma strict_alloc o : strict (alloc o).
Proof. apply strict_silent. reflexivity. Qed.

Lemma strict_store r o : strict (store r o).
Proof. apply strict_silent. reflexivity. Qed.

Lemma strict_unpack2 v : strict (unpack2 v).
Proof. unfold unpack2. strictness. Qed.

Lemma strict_unzip2 {A B} (rs : list (A * B)) : strict (unzip2 rs).
Proof. unfold unzip2. strictness. Qed.

Lemma strict_loss_batch model xb yb loss_fn opt :
  strict (loss_batch model xb yb loss_fn opt).
Proof. unfold loss_batch. strictness. Qed.

Lemma strict_Lambda_forward func x : strict (Lambda_forward func x).
Proof. unfold Lambda_forward. strictness. Qed.

Lemma strict_ResizeBatch size : strict (ResizeBatch size).
Proof. unfold ResizeBatch. a_call. Qed.

Lemma strict_Flatten : strict Flatten.
Proof. unfold Flatten. a_call. Qed.

Lemma strict_PoolFlatten : strict PoolFlatten.
Proof. unfold PoolFlatten, Flatten. strictness. Qed.

Lemma strict_conv2d ni nf ks stride padding bias :
  strict (conv2d ni nf ks stride padding bias).
Proof. unfold conv2d. a_call. Qed.

Lemma strict_conv2d_relu ni nf ks stride padding bn :
  strict (conv2d_relu ni nf ks stride padding bn).
Proof. unfold conv2d_relu, conv2d. strictness. Qed.

Lemma strict_conv2d_trans ni nf ks stride padding :
  strict (conv2d_trans ni nf ks stride padding).
Proof. unfold conv2d_trans. a_call. Qed.

Lemma strict_index {A} (l : list A) i : strict (index l i).
Proof. unfold index. strictness. Qed.

Lemma strict_simple_cnn actns kernel_szs strides :
  strict (simple_cnn actns kernel_szs strides).
Proof.
  unfold simple_cnn.
  apply strict_bind; [| intros _ layers _ _].
  - apply strict_comprehension_of, Forall_forall. intros i _.
    apply strict_bind; [apply strict_index | intros _ ni _ _].
    apply strict_bind; [apply strict_index | intros _ nf _ _].
    apply strict_bind; [apply strict_index | intros _ ks _ _].
    apply strict_bind; [apply strict_index | intros _ stride _ _].
    apply strict_conv2d_relu.
  - apply strict_bind; [apply strict_PoolFlatten | intros _ pf _ _]. a_call.
Qed.

Lemma strict_DatasetTfm_init ds tfm : strict (DatasetTfm_init ds tfm).
Proof. apply strict_alloc. Qed.

Lemma strict_DatasetTfm_len self : strict (DatasetTfm_len self).
Proof.
  unfold DatasetTfm_len.
  apply strict_bind; [apply strict_get_DatasetTfm | intros _ o _ _]. a_call.
Qed.

Lemma strict_DatasetTfm_getitem self idx : strict (DatasetTfm_getitem self idx).
Proof.
  unfold DatasetTfm_getitem.
  apply strict_bind; [apply strict_get_DatasetTfm | intros _ o _ _].
  apply strict_bind; [a_call | intros _ item _ _].
  apply strict_bind; [apply strict_unpack2 | intros _ [x y] _ _].
  apply strict_bind; [apply strict_get_DatasetTfm | intros _ o' _ _].
  strictness.
Qed.

Lemma strict_to_device b : forall device, strict (to_device b device).
Proof.
  induction b as [t | os IH | os IH] using Tensors_nested_ind; intros device; simpl.
  - strictness.
  - apply strict_bind; [| intros _ rs _ _; apply strict_ret].
    apply strict_comprehension_of.
    induction IH as [| o os Ho _ IHos]; constructor; [apply Ho | exact IHos].
  - apply strict_bind; [| intros _ rs _ _; apply strict_ret].
    apply strict_comprehension_of.
    induction IH as [| o os Ho _ IHos]; constructor; [apply Ho | exact IHos].
Qed.

Lemma strict_to_device_module b device : strict (to_device_module b device).
Proof. unfold to_device_module. a_call. Qed.

Lemma strict_DeviceDataLoader_init dl device : strict (DeviceDataLoader_init dl device).
Proof. apply strict_alloc. Qed.

Lemma strict_DeviceDataLoader_len self : strict (DeviceDataLoader_len self).
Proof.
  unfold DeviceDataLoader_len.
  apply strict_bind; [apply strict_get_DeviceDataLoader | intros _ o _ _]. a_call.
Qed.

Lemma strict_DeviceDataLoader_proc_batch self b :
  strict (DeviceDataLoader_proc_batch self b).
Proof.
  unfold DeviceDataLoader_proc_batch.
  apply strict_bind; [apply strict_get_DeviceDataLoader | intros _ o _ _].
  apply strict_to_device.
Qed.

Lemma strict_set_gen self g : strict (set_gen self g).
Proof.
  unfold set_gen.
  apply strict_bind; [apply strict_get_DeviceDataLoader | intros _ o _ _].
  apply strict_store.
Qed.

Lemma strict_DeviceDataLoader_iter self : strict (DeviceDataLoader_iter self).
Proof.
  unfold DeviceDataLoader_iter.
  apply strict_bind; [apply strict_get_DeviceDataLoader | intros _ o _ _].
  apply strict_bind; [a_call | intros _ bs _ _].
  apply strict_bind; [apply strict_set_gen | intros _ _ _ _]. apply strict_ret.
Qed.

Lemma strict_DeviceDataLoader_create args device kwargs :
  strict (DeviceDataLoader_create args device kwargs).
Proof.
  unfold DeviceDataLoader_create.
  apply strict_bind; [a_call | intros _ dl _ _].
  apply strict_DeviceDataLoader_init.
Qed.

Lemma strict_DataBunch_create train_ds valid_ds bs train_tfm valid_tfm device kwargs :
  strict (DataBunch_create train_ds valid_ds bs train_tfm valid_tfm device kwargs).
Proof.
  unfold DataBunch_create, check_keyword, DataBunch_init.
  apply strict_bind; [apply strict_DatasetTfm_init | intros _ tds _ _].
  apply strict_bind; [strictness | intros _ _ _ _].
  apply strict_bind; [apply strict_DeviceDataLoader_create | intros _ tdl _ _].
  apply strict_bind; [apply strict_DatasetTfm_init | intros _ vds _ _].
  apply strict_bind; [strictness | intros _ _ _ _].
  apply strict_bind; [apply strict_DeviceDataLoader_create | intros _ vdl _ _].
  apply strict_alloc.
Qed.

Lemma strict_Learner_init data model : strict (Learner_init data model).
Proof.
  unfold Learner_init.
  apply strict_bind; [apply strict_get_DataBunch | intros _ d _ _].
  apply strict_bind; [apply strict_to_device_module | intros _ m _ _].
  apply strict_alloc.
Qed.

(** The iterator [__iter__] returns applies [proc_batch] to each batch. *)
Lemma DeviceDataLoader_iter_items self s it s' :
  DeviceDataLoader_iter self s = (inr it, s') ->
  exists bs, it = map (DeviceDataLoader_proc_batch self) bs.
Proof.
  unfold DeviceDataLoader_iter, bind, ret. intros E.
  destruct (get_DeviceDataLoader self s) as [[e | o] s1]; [discriminate |].
  destruct (call (Iterate (self_dl o)) s1) as [[e | bs] s2]; [discriminate |].
  destruct (set_gen self {| map_self := self; map_batches := bs |} s2) as [[e | []] s3];
    [discriminate |].
  injection E as <- _. exists bs. reflexivity.
Qed.

Lemma iter_items dl s it s' :
  iter dl s = (inr it, s') -> Forall strict it.
Proof.
  destruct dl as [dl | r]; simpl; intros E.
  - unfold bind, ret in E.
    destruct (call (Iterate dl) s) as [[e | bs] s1]; [discriminate |].
    injection E as <- _. apply Forall_map, Forall_forall. intros b _. apply strict_ret.
  - apply DeviceDataLoader_iter_items in E as [bs ->].
    apply Forall_map, Forall_forall. intros b _. apply strict_DeviceDataLoader_proc_batch.
Qed.

Lemma strict_iter dl : strict (iter dl).
Proof.
  destruct dl as [dl | r]; simpl; [| apply strict_DeviceDataLoader_iter].
  apply strict_bind; [a_call | intros _ bs _ _]. apply strict_ret.
Qed.

Lemma propagates_fit epochs model loss_fn opt train_dl valid_dl :
  propagates (fit epochs model loss_fn opt train_dl valid_dl).
Proof.
  unfold fit. apply propagates_for.
  { apply Forall_map, Forall_forall. intros e _. apply propagates_of_strict, strict_ret. }
  intros epoch.
  apply propagates_bind; [apply propagates_of_strict; a_call | intros _ _ _ _].
  apply propagates_bind; [apply propagates_of_strict, strict_iter | intros s1 it s2 Hit].
  apply propagates_bind.
  { apply propagates_for.
    - eapply Forall_impl; [exact (iter_items _ _ _ _ Hit) |].
      intros next. apply propagates_of_strict.
    - intros b. apply propagates_of_strict.
      apply strict_bind; [apply strict_unpack2 | intros _ [xb yb] _ _].
      apply strict_bind; [apply strict_loss_batch | intros _ [loss n] _ _].
      apply strict_ret. }
  intros _ _ _ _.
  apply propagates_bind; [apply propagates_of_strict; a_call | intros _ _ _ _].
  apply propagates_bind.
  { apply propagates_with_no_grad.
    apply propagates_bind; [apply propagates_of_strict, strict_iter | intros s3 vit s4 Hvit].
    apply propagates_bind; [| intros _ rs _ _; apply propagates_of_strict, strict_unzip2].
    apply propagates_comprehension.
    - eapply Forall_impl; [exact (iter_items _ _ _ _ Hvit) |].
      intros next. apply propagates_of_strict.
    - intros b. apply propagates_of_strict.
      apply strict_bind; [apply strict_unpack2 | intros _ [xb yb] _ _].
      apply strict_loss_batch. }
  intros _ [losses nums] _ _. apply propagates_of_strict; a_call.
Qed.

Lemma propagates_Learner_fit self epochs lr opt_fn :
  propagates (Learner_fit self epochs lr opt_fn).
Proof.
  unfold Learner_fit.
  apply propagates_bind; [apply propagates_of_strict, strict_get_Learner | intros _ o _ _].
  apply propagates_bind; [apply propagates_of_strict; a_call | intros _ ps _ _].
  apply propagates_bind; [apply propagates_of_strict; a_call | intros _ opt _ _].
  apply propagates_bind; [apply propagates_of_strict, strict_get_DataBunch | intros _ d _ _].
  apply propagates_fit.
Qed.

End Functions.

Section NoHandler.
Context {F : Framework} {R : Runtime}.


End NoHandler.


(** ** The objects of the notebook *)

Section Heap.
Context {F : Framework} {R : Runtime}.

Lemma keeps_ret {A} (a : A) : keeps_heap (ret a).
Proof. intros s. reflexivity. Qed.

Lemma keeps_raise {A} (e : Exn) : keeps_heap (raise (A := A) e).
Proof. intros s. reflexivity. Qed.

Lemma keeps_call (c : Call) : keeps_heap (call c).
Proof. intros s. rewrite call_run. reflexivity. Qed.

Ltac k_call :=
  match goal with |- keeps_heap (call ?c) => exact (keeps_call c) end.

Lemma keeps_bind {A B} (m : M A) (k : A -> M B) :
  keeps_heap m -> (forall a, keeps_heap (k a)) -> keeps_heap (bind m k).
Proof.
  intros Hm Hk s. unfold bind. specialize (Hm s).
  destruct (m s) as [[e | a] s1]; cbn [snd] in *; [exact Hm |].
  rewrite Hk. exact Hm.
Qed.

Lemma keeps_get_DatasetTfm r : keeps_heap (get_DatasetTfm r).
Proof. intros s. unfold get_DatasetTfm. destruct (heap s !! r) as [[] |]; reflexivity. Qed.

Lemma keeps_get_DeviceDataLoader r : keeps_heap (get_DeviceDataLoader r).
Proof.
  intros s. unfold get_DeviceDataLoader. destruct (heap s !! r) as [[] |]; reflexivity.
Qed.

Lemma keeps_comprehension_of {A B} (f : A -> M B) (l : list A) :
  Forall (fun x => keeps_heap (f x)) l -> keeps_heap (comprehension_of f l).
Proof.
  induction 1 as [| x l Hx _ IH]; simpl; [apply keeps_ret |].
  apply keeps_bind; [exact Hx | intros y].
  apply keeps_bind; [exact IH | intros ys]. apply keeps_ret.
Qed.

Lemma keeps_unpack2 v : keeps_heap (unpack2 v).
Proof.
  unfold unpack2. apply keeps_bind.
  - destruct v; [| apply keeps_ret | apply keeps_ret].
    apply keeps_bind; [k_call | intros ts; apply keeps_ret].
  - intros [| a [| b [| c vs]]]; first [apply keeps_ret | apply keeps_raise].
Qed.

Lemma keeps_to_device b : forall device, keeps_heap (to_device b device).
Proof.
  induction b as [t | os IH | os IH] using Tensors_nested_ind; intros device; simpl.
  - apply keeps_bind; [k_call | intros t'; apply keeps_ret].
  - apply keeps_bind; [| intros rs; apply keeps_ret].
    apply keeps_comprehension_of.
    induction IH as [| o os Ho _ IHos]; constructor; [apply Ho | exact IHos].
  - apply keeps_bind; [| intros rs; apply keeps_ret].
    apply keeps_comprehension_of.
    induction IH as [| o os Ho _ IHos]; constructor; [apply Ho | exact IHos].
Qed.

Lemma keeps_DatasetTfm_len self : keeps_heap (DatasetTfm_len self).
Proof.
  unfold DatasetTfm_len.
  apply keeps_bind; [apply keeps_get_DatasetTfm | intros o; k_call].
Qed.

Lemma keeps_DatasetTfm_getitem self idx : keeps_heap (DatasetTfm_getitem self idx).
Proof.
  unfold DatasetTfm_getitem.
  apply keeps_bind; [apply keeps_get_DatasetTfm | intros o].
  apply keeps_bind; [k_call | intros item].
  apply keeps_bind; [apply keeps_unpack2 | intros [x y]].
  apply keeps_bind; [apply keeps_get_DatasetTfm | intros o'].
  apply keeps_bind; [| intros x'; apply keeps_ret].
  destruct (self_tfm o'); [k_call | apply keeps_ret].
Qed.

Lemma keeps_DeviceDataLoader_len self : keeps_heap (DeviceDataLoader_len self).
Proof.
  unfold DeviceDataLoader_len.
  apply keeps_bind; [apply keeps_get_DeviceDataLoader | intros o; k_call].
Qed.

Lemma keeps_DeviceDataLoader_proc_batch self b :
  keeps_heap (DeviceDataLoader_proc_batch self b).
Proof.
  unfold DeviceDataLoader_proc_batch.
  apply keeps_bind; [apply keeps_get_DeviceDataLoader | intros o; apply keeps_to_device].
Qed.

Lemma get_DatasetTfm_at r o s :
  heap s !! r = Some (ODatasetTfm o) -> get_DatasetTfm r s = (inr o, s).
Proof. intros Hr. unfold get_DatasetTfm. rewrite Hr. reflexivity. Qed.

Lemma get_DeviceDataLoader_at r o s :
  heap s !! r = Some (ODeviceDataLoader o) -> get_DeviceDataLoader r s = (inr o, s).
Proof. intros Hr. unfold get_DeviceDataLoader. rewrite Hr. reflexivity. Qed.

Lemma call_heap (c : Call) s r s' : call c s = (r, s') -> heap s' = heap s.
Proof. intros E. pose proof (keeps_call c s) as K. rewrite E in K. exact K. Qed.

(** C4: [DatasetTfm(ds, tfm)] has the length of [ds]; where [ds[idx]] is a
    pair [(x, y)], its item at [idx] is [(tfm(x), y)] when there is a
    transform, with [tfm(x)] the one further call, and [(x, y)] itself when
    [tfm] is [None].  The target [y] is handed back as it came. *)
Theorem DatasetTfm_items self ds tfm idx s item x y s1 :
  heap s !! self = Some (ODatasetTfm (mkDatasetTfm ds tfm)) ->
  call (DsGetItem ds idx) s = (inr item, s1) ->
  pair_of item = Some (x, y) ->
  DatasetTfm_len self s = call (DsLen ds) s /\
  DatasetTfm_getitem self idx s =
    match tfm with
    | Some f => bind (call (ApplyTfm f x)) (fun x' => ret (PyTuple [x'; y])) s1
    | None => (inr (PyTuple [x; y]), s1)
    end.
Proof.
  intros Hself Hitem Hpair. split.
  - unfold DatasetTfm_len. rewrite (bind_inr _ _ _ _ _ (get_DatasetTfm_at _ _ _ Hself)).
    reflexivity.
  - unfold DatasetTfm_getitem.
    rewrite (bind_inr _ _ _ _ _ (get_DatasetTfm_at _ _ _ Hself)). cbn [self_ds].
    rewrite (bind_inr _ _ _ _ _ Hitem).
    destruct (unpack2_pair item x y s1 Hpair) as (Hun & _).
    rewrite (bind_inr _ _ _ _ _ Hun).
    assert (Hself1 : heap s1 !! self = Some (ODatasetTfm (mkDatasetTfm ds tfm)))
      by (rewrite (call_heap _ _ _ _ Hitem); exact Hself).
    rewrite (bind_inr _ _ _ _ _ (get_DatasetTfm_at _ _ _ Hself1)). cbn [self_tfm].
    destruct tfm as [f |]; reflexivity.
Qed.

End Heap.

Section Loaders.
Context {F : Framework} {R : Runtime}.

Lemma bind_ext_at {A B} (m1 m2 : M A) (k1 k2 : A -> M B) s :
  m1 s = m2 s ->
  (forall a s', m2 s = (inr a, s') -> k1 a s' = k2 a s') ->
  bind m1 k1 s = bind m2 k2 s.
Proof.
  intros E Hk. unfold bind. rewrite E.
  destruct (m2 s) as [[e | a] s'] eqn:E2; [reflexivity | apply Hk; reflexivity].
Qed.

Lemma proc_batch_at self d b s :
  device_of self s = Some d ->
  DeviceDataLoader_proc_batch self b s = to_device b d s.
Proof.
  unfold device_of, DeviceDataLoader_proc_batch. intros Hd.
  destruct (heap s !! self) as [[o | o | o | o] |] eqn:Hself; try discriminate.
  injection Hd as <-.
  rewrite (bind_inr _ _ _ _ _ (get_DeviceDataLoader_at _ _ _ Hself)). reflexivity.
Qed.

Lemma device_of_kept {A} (m : M A) self s :
  keeps_heap m -> device_of self (snd (m s)) = device_of self s.
Proof. intros Hm. unfold device_of. rewrite Hm. reflexivity. Qed.

(** Asking the iterator of a [DeviceDataLoader] for all its items moves the
    batches one after the other. *)
Lemma drain_iterator self d bs :
  forall s, device_of self s = Some d ->
    comprehension (map (DeviceDataLoader_proc_batch self) bs) ret s =
    comprehension_of (fun b => to_device b d) bs s.
Proof.
  induction bs as [| b bs IH]; intros s Hd; simpl; [reflexivity |].
  apply bind_ext_at; [apply proc_batch_at, Hd | intros r s1 E].
  pose proof (device_of_kept (to_device b d) self s (keeps_to_device b d)) as Hd'.
  rewrite E, Hd in Hd'. cbn [snd] in Hd'.
  rewrite (bind_inr (ret r) _ s1 r s1 eq_refl).
  apply bind_ext_at; [apply IH, Hd' | reflexivity].
Qed.

(** C5: [len] of a [DeviceDataLoader] is [len(dl)]; its [__iter__] starts a
    traversal of [dl] and moves nothing yet; the iterator it returns has one
    item per batch of that traversal, in the same order, and asking for an
    item runs [to_device] on that batch with the loader's device and
    nothing else; asking for all of them runs [to_device] on the batches
    one after the other. *)
Theorem DeviceDataLoader_iterates self o bs s s1 :
  heap s !! self = Some (ODeviceDataLoader o) ->
  call (Iterate (self_dl o)) s = (inr bs, s1) ->
  DeviceDataLoader_len self s = call (Len (self_dl o)) s /\
  exists it s2,
    DeviceDataLoader_iter self s = (inr it, s2) /\
    trace s2 = trace s1 /\
    world s2 = world s1 /\
    length it = length bs /\
    Forall2 (fun next b =>
               forall s', device_of self s' = Some (self_device o) ->
                          next s' = to_device b (self_device o) s') it bs /\
    comprehension it ret s2 = moved_batches (self_device o) bs s2.
Proof.
  intros Hself Hiter. split.
  { unfold DeviceDataLoader_len.
    rewrite (bind_inr _ _ _ _ _ (get_DeviceDataLoader_at _ _ _ Hself)). reflexivity. }
  assert (Hself1 : heap s1 !! self = Some (ODeviceDataLoader o))
    by (rewrite (call_heap _ _ _ _ Hiter); exact Hself).
  eexists (map (DeviceDataLoader_proc_batch self) bs), _. split.
  { unfold DeviceDataLoader_iter.
    rewrite (bind_inr _ _ _ _ _ (get_DeviceDataLoader_at _ _ _ Hself)).
    rewrite (bind_inr _ _ _ _ _ Hiter).
    unfold set_gen. unfold bind at 1.
    rewrite (bind_inr _ _ _ _ _ (get_DeviceDataLoader_at _ _ _ Hself1)).
    reflexivity. }
  split; [reflexivity |]. split; [reflexivity |]. split; [apply length_map |]. split.
  - clear. induction bs as [| b bs IH]; constructor; [| exact IH].
    intros s' Hd. apply proc_batch_at, Hd.
  - apply drain_iterator. unfold device_of. cbn [heap]. rewrite lookup_insert_eq.
    reflexivity.
Qed.

(** C6, amended: every constructor stores exactly the fields it is given;
    [__len__] and [__getitem__] of [DatasetTfm], and [__len__] and
    [proc_batch] of [DeviceDataLoader], change no object; [__iter__] of
    [DeviceDataLoader] changes no declared field of any object, so [ds],
    [tfm], [dl], [device], [train_dl] and [valid_dl] stay as constructed,
    but when it returns it has stored the iterator it built in the
    attribute [gen] of its loader, a state beyond the two fields. *)
Theorem wrappers_keep_fields s :
  (forall ds tfm, exists r,
     heap s !! r = None /\
     DatasetTfm_init ds tfm s =
       (inr r, mkSt (world s) (grad_enabled s)
                 (<[r := ODatasetTfm (mkDatasetTfm ds tfm)]> (heap s)) (trace s))) /\
  (forall dl device, exists r,
     heap s !! r = None /\
     DeviceDataLoader_init dl device s =
       (inr r, mkSt (world s) (grad_enabled s)
                 (<[r := ODeviceDataLoader (mkDeviceDataLoader dl device None)]> (heap s))
                 (trace s))) /\
  (forall train_dl valid_dl device, exists r,
     heap s !! r = None /\
     DataBunch_init train_dl valid_dl device s =
       (inr r, mkSt (world s) (grad_enabled s)
                 (<[r := ODataBunch (mkDataBunch train_dl valid_dl device)]> (heap s))
                 (trace s))) /\
  (forall self, heap (snd (DatasetTfm_len self s)) = heap s) /\
  (forall self idx, heap (snd (DatasetTfm_getitem self idx s)) = heap s) /\
  (forall self, heap (snd (DeviceDataLoader_len self s)) = heap s) /\
  (forall self b, heap (snd (DeviceDataLoader_proc_batch self b s)) = heap s) /\
  (forall self r,
     declared <$> (heap (snd (DeviceDataLoader_iter self s)) !! r) =
     declared <$> (heap s !! r)) /\
  (forall self o it s',
     heap s !! self = Some (ODeviceDataLoader o) ->
     DeviceDataLoader_iter self s = (inr it, s') ->
     exists bs,
       heap s' = <[self := ODeviceDataLoader
                     (mkDeviceDataLoader (self_dl o) (self_device o)
                        (Some (mkMapObject self bs)))]> (heap s)).
Proof.
  assert (Hfresh : heap s !! fresh (dom (heap s)) = None)
    by (apply not_elem_of_dom, is_fresh).
  split; [intros; eexists; split; [exact Hfresh | reflexivity] |].
  split; [intros; eexists; split; [exact Hfresh | reflexivity] |].
  split; [intros; eexists; split; [exact Hfresh | reflexivity] |].
  split; [intros self; apply keeps_DatasetTfm_len |].
  split; [intros self idx; apply keeps_DatasetTfm_getitem |].
  split; [intros self; apply keeps_DeviceDataLoader_len |].
  split; [intros self b; apply keeps_DeviceDataLoader_proc_batch |].
  split.
  - intros self r. unfold DeviceDataLoader_iter, bind at 1.
    pose proof (keeps_get_DeviceDataLoader self s) as K0.
    destruct (get_DeviceDataLoader self s) as [[e | o] s0] eqn:E0; cbn [snd] in *;
      [rewrite K0; reflexivity |].
    unfold bind at 1. pose proof (keeps_call (Iterate (self_dl o)) s0) as K1.
    destruct (call (Iterate (self_dl o)) s0) as [[e | bs] s1]; cbn [snd] in *;
      [rewrite K1, K0; reflexivity |].
    unfold bind at 1, set_gen, bind at 1.
    destruct (get_DeviceDataLoader self s1) as [[e | o1] s2] eqn:E2.
    { pose proof (keeps_get_DeviceDataLoader self s1) as K2. rewrite E2 in K2.
      cbn [snd] in *. rewrite K2, K1, K0. reflexivity. }
    assert (Ho1 : heap s2 = heap s /\ heap s !! self = Some (ODeviceDataLoader o1)).
    { unfold get_DeviceDataLoader in E2.
      destruct (heap s1 !! self) as [[x | x | x | x] |] eqn:Hs1; try discriminate.
      injection E2 as -> <-. rewrite K1, K0 in Hs1. rewrite K1, K0. auto. }
    destruct Ho1 as [Hh Hself]. cbn [snd store ret heap]. rewrite Hh.
    destruct (decide (r = self)) as [-> |].
    + rewrite lookup_insert_eq, Hself. reflexivity.
    + rewrite lookup_insert_ne by congruence. reflexivity.
  - intros self o it s' Hself E. unfold DeviceDataLoader_iter in E.
    rewrite (bind_inr _ _ _ _ _ (get_DeviceDataLoader_at _ _ _ Hself)) in E.
    unfold bind at 1 in E.
    pose proof (keeps_call (Iterate (self_dl o)) s) as K1.
    destruct (call (Iterate (self_dl o)) s) as [[e | bs] s1]; [discriminate |].
    cbn [snd] in K1.
    assert (Hself1 : heap s1 !! self = Some (ODeviceDataLoader o)) by (rewrite K1; exact Hself).
    unfold set_gen in E. unfold bind at 1 in E.
    rewrite (bind_inr _ _ _ _ _ (get_DeviceDataLoader_at _ _ _ Hself1)) in E.
    cbn in E. injection E as _ <-. exists bs. cbn [heap]. rewrite K1. reflexivity.
Qed.

End Loaders.

(** ** [to_device] *)

Section ToDevice.
Context {F : Framework} {R : Runtime}.

Lemma moves_app d g ts1 ts1' ts2 ts2' :
  length ts1' = length ts1 ->
  moves d g (ts1 ++ ts2) (ts1' ++ ts2') = moves d g ts1 ts1' ++ moves d g ts2 ts2'.
Proof. intros Hlen. unfold moves. apply zip_with_app. symmetry. exact Hlen. Qed.

(** The comprehension of [to_device] over the items of a tuple or list. *)
Lemma to_device_items d os :
  Forall (fun o => forall s, exists r s',
            returns (to_device o (Some d)) s r
              (moves d (grad_enabled s) (leaves o) (leaves r)) s' /\
            length (leaves r) = length (leaves o) /\ listified o r) os ->
  forall s, exists rs s',
    returns (comprehension_of (fun o => to_device o (Some d)) os) s rs
      (moves d (grad_enabled s) (flat_map leaves os) (flat_map leaves rs)) s' /\
    length (flat_map leaves rs) = length (flat_map leaves os) /\
    Forall2 listified os rs.
Proof.
  induction 1 as [| o os Ho _ IH]; intros s.
  - exists [], s. split; [apply returns_ret |]. split; [reflexivity | constructor].
  - destruct (Ho s) as (r & s1 & H1 & L1 & S1).
    destruct (IH s1) as (rs & s2 & H2 & L2 & S2).
    rewrite (returns_grad _ _ _ _ _ H1) in H2.
    exists (r :: rs), s2. split; [| split].
    + eapply returns_eq.
      * simpl. eapply returns_seq; [exact H1 |].
        eapply returns_seq; [exact H2 | apply returns_ret].
      * simpl. rewrite app_nil_r. symmetry. apply moves_app, L1.
    + simpl. rewrite !length_app. congruence.
    + constructor; assumption.
Qed.

Lemma to_device_returns b :
  never_raises ->
  forall device s, exists r s',
    returns (to_device b device) s r
      (moves (ifnone device default_device) (grad_enabled s) (leaves b) (leaves r)) s' /\
    length (leaves r) = length (leaves b) /\
    listified b r.
Proof.
  intros Hok.
  induction b as [t | os IH | os IH] using Tensors_nested_ind; intros device s; simpl.
  - destruct (returns_call (TensorTo t (ifnone device default_device)) s Hok)
      as (t' & s' & Ht).
    exists (Tns t'), s'. split; [| split; [reflexivity | constructor]].
    eapply returns_eq; [eapply returns_seq; [exact Ht | apply returns_ret] | reflexivity].
  - destruct (to_device_items (ifnone device default_device) os) with (s := s)
      as (rs & s' & Hrs & Lrs & Srs).
    { eapply Forall_impl; [exact IH |]. intros o Ho s0. apply (Ho (Some _) s0). }
    exists (PyList rs), s'. split; [| split; [exact Lrs | constructor; exact Srs]].
    eapply returns_eq; [eapply returns_seq; [exact Hrs | apply returns_ret] |].
    simpl. apply app_nil_r.
  - destruct (to_device_items (ifnone device default_device) os) with (s := s)
      as (rs & s' & Hrs & Lrs & Srs).
    { eapply Forall_impl; [exact IH |]. intros o Ho s0. apply (Ho (Some _) s0). }
    exists (PyList rs), s'. split; [| split; [exact Lrs | constructor; exact Srs]].
    eapply returns_eq; [eapply returns_seq; [exact Hrs | apply returns_ret] |].
    simpl. apply app_nil_r.
Qed.

(** What a comprehension of [to_device] that returned has done. *)
Lemma to_device_items_returned d os :
  Forall (fun o => forall s r s',
            to_device o (Some d) s = (inr r, s') ->
            extends s (moves d (grad_enabled s) (leaves o) (leaves r)) s' /\
            length (leaves r) = length (leaves o) /\ listified o r) os ->
  forall s rs s',
    comprehension_of (fun o => to_device o (Some d)) os s = (inr rs, s') ->
    extends s (moves d (grad_enabled s) (flat_map leaves os) (flat_map leaves rs)) s' /\
    length (flat_map leaves rs) = length (flat_map leaves os) /\
    Forall2 listified os rs.
Proof.
  induction 1 as [| o os Ho _ IH]; intros s rs s' E; simpl in E.
  - apply ret_inv in E as [-> ->].
    split; [apply extends_refl |]. split; [reflexivity | constructor].
  - apply bind_inv in E as (r & s1 & E1 & E).
    apply bind_inv in E as (rs' & s2 & E2 & E).
    apply ret_inv in E as [-> ->].
    apply Ho in E1 as (X1 & L1 & S1). apply IH in E2 as (X2 & L2 & S2).
    rewrite (extends_grad _ _ _ X1) in X2.
    split; [| split].
    + eapply extends_eq; [exact (extends_trans _ _ _ _ _ X1 X2) |].
      simpl. symmetry. apply moves_app, L1.
    + simpl. rewrite !length_app. congruence.
    + constructor; assumption.
Qed.

Lemma to_device_returned b :
  forall device s r s',
    to_device b device s = (inr r, s') ->
    extends s (moves (ifnone device default_device) (grad_enabled s) (leaves b) (leaves r))
      s' /\
    length (leaves r) = length (leaves b) /\
    listified b r.
Proof.
  induction b as [t | os IH | os IH] using Tensors_nested_ind;
    intros device s r s' E; simpl in E.
  - apply bind_inv in E as (t' & s1 & E1 & E). apply ret_inv in E as [-> ->].
    inv_call E1; destruct E1 as [X1 _].
    split; [exact X1 |]. split; [reflexivity | constructor].
  - apply bind_inv in E as (rs & s1 & E1 & E). apply ret_inv in E as [-> ->].
    apply (to_device_items_returned (ifnone device default_device) os) in E1
      as (X1 & L1 & S1).
    + split; [exact X1 |]. split; [exact L1 | constructor; exact S1].
    + eapply Forall_impl; [exact IH |]. intros o Ho s0 r0 s0'. apply (Ho (Some _)).
  - apply bind_inv in E as (rs & s1 & E1 & E). apply ret_inv in E as [-> ->].
    apply (to_device_items_returned (ifnone device default_device) os) in E1
      as (X1 & L1 & S1).
    + split; [exact X1 |]. split; [exact L1 | constructor; exact S1].
    + eapply Forall_impl; [exact IH |]. intros o Ho s0 r0 s0'. apply (Ho (Some _)).
Qed.


End ToDevice.

(** ** The wrappers on the small framework *)

Lemma DatasetTfm_items_witness :
  heap ToyData.with_dataset !! ToyData.first =
    Some (ODatasetTfm (mkDatasetTfm ToyData.samples (Some ToyData.plus_ten))) /\
  call (R := Toy.runtime None) (DsGetItem ToyData.samples 1) ToyData.with_dataset =
    (inr (PyTuple [ToyData.tns 3; ToyData.tns 4]),
     snd (call (R := Toy.runtime None) (DsGetItem ToyData.samples 1) ToyData.with_dataset)) /\
  pair_of (PyTuple [ToyData.tns 3; ToyData.tns 4]) = Some (ToyData.tns 3, ToyData.tns 4) /\
  DatasetTfm_len ToyData.first ToyData.with_dataset =
    call (DsLen ToyData.samples) ToyData.with_dataset /\
  DatasetTfm_getitem ToyData.first 1 ToyData.with_dataset =
    bind (call (ApplyTfm ToyData.plus_ten (ToyData.tns 3)))
         (fun x' => ret (PyTuple [x'; ToyData.tns 4]))
         (snd (call (R := Toy.runtime None) (DsGetItem ToyData.samples 1)
                 ToyData.with_dataset)).
Proof.
  split; [vm_compute; reflexivity |]. split; [vm_compute; reflexivity |].
  split; [reflexivity |].
  apply (DatasetTfm_items (R := Toy.runtime None) ToyData.first ToyData.samples
           (Some ToyData.plus_ten) 1 ToyData.with_dataset
           (PyTuple [ToyData.tns 3; ToyData.tns 4]) (ToyData.tns 3) (ToyData.tns 4)).
  - vm_compute; reflexivity.
  - vm_compute; reflexivity.
  - reflexivity.
Defined.

(** The item at index 1 of the transformed dataset: the transform has added
    ten to [x] and left [y] alone. *)
Example DatasetTfm_item_1 :
  fst (DatasetTfm_getitem ToyData.first 1 ToyData.with_dataset) =
  inr (PyTuple [ToyData.tns 13; ToyData.tns 4]).
Proof. vm_compute. reflexivity. Qed.

Lemma DeviceDataLoader_iterates_witness :
  heap ToyData.with_loader !! ToyData.first =
    Some (ODeviceDataLoader (mkDeviceDataLoader ToyData.two_batches None None)) /\
  call (R := Toy.runtime None) (Iterate ToyData.two_batches) ToyData.with_loader =
    (inr [Toy.batch_of [1; 2]; Toy.batch_of [3; 4]],
     snd (call (R := Toy.runtime None) (Iterate ToyData.two_batches) ToyData.with_loader)) /\
  DeviceDataLoader_len ToyData.first ToyData.with_loader =
    call (Len ToyData.two_batches) ToyData.with_loader /\
  exists it s2,
    DeviceDataLoader_iter ToyData.first ToyData.with_loader = (inr it, s2) /\
    trace s2 =
      trace (snd (call (R := Toy.runtime None) (Iterate ToyData.two_batches)
                    ToyData.with_loader)) /\
    world s2 =
      world (snd (call (R := Toy.runtime None) (Iterate ToyData.two_batches)
                    ToyData.with_loader)) /\
    length it = length [Toy.batch_of [1; 2]; Toy.batch_of [3; 4]] /\
    Forall2 (fun next b =>
               forall s', device_of ToyData.first s' = Some None ->
                          next s' = to_device b None s')
      it [Toy.batch_of [1; 2]; Toy.batch_of [3; 4]] /\
    comprehension it ret s2 =
      moved_batches None [Toy.batch_of [1; 2]; Toy.batch_of [3; 4]] s2.
Proof.
  split; [vm_compute; reflexivity |]. split; [vm_compute; reflexivity |].
  apply (DeviceDataLoader_iterates (R := Toy.runtime None) ToyData.first
           (mkDeviceDataLoader ToyData.two_batches None None)
           [Toy.batch_of [1; 2]; Toy.batch_of [3; 4]] ToyData.with_loader).
  - vm_compute; reflexivity.
  - vm_compute; reflexivity.
Defined.

(** C6 as stated fails for [DeviceDataLoader]: after [__iter__] the loader
    is no longer the object that was constructed.  It holds, besides [dl]
    and [device], the iterator in [gen]. *)
Lemma iter_stores_gen :
  heap ToyData.with_loader !! ToyData.first =
    Some (ODeviceDataLoader (mkDeviceDataLoader ToyData.two_batches None None)) /\
  heap (snd (DeviceDataLoader_iter ToyData.first ToyData.with_loader)) !! ToyData.first =
    Some (ODeviceDataLoader
            (mkDeviceDataLoader ToyData.two_batches None
               (Some (mkMapObject ToyData.first
                        [Toy.batch_of [1; 2]; Toy.batch_of [3; 4]])))) /\
  heap (snd (DeviceDataLoader_iter ToyData.first ToyData.with_loader)) <>
    heap ToyData.with_loader.
Proof.
  split; [vm_compute; reflexivity |]. split; [vm_compute; reflexivity |].
  intros Heq. apply (f_equal (fun h => h !! ToyData.first)) in Heq.
  vm_compute in Heq. discriminate Heq.
Qed.


(** On the small framework a tuple comes back as a list. *)
Example to_device_nested :
  fst (to_device (R := Toy.runtime None) ToyData.nested None (Toy.s0 None)) =
  inr (PyList [ToyData.tns 1; PyList [ToyData.tns 2; ToyData.tns 3]]).
Proof. vm_compute. reflexivity. Qed.

(** ** [simple_cnn] *)

Section Network.
Context {F : Framework} {R : Runtime}.

Lemma getitem_lookup {A} (l : list A) (i : nat) (x : A) :
  l !! i = Some x -> getitem l (Z.of_nat i) = inr x.
Proof.
  intros Hx. pose proof (lookup_lt_Some _ _ _ Hx) as Hlt. unfold getitem.
  assert (E1 : (Z.of_nat i <? 0) = false) by (apply Z.ltb_ge; lia).
  assert (E2 : (0 <=? Z.of_nat i) = true) by (apply Z.leb_le; lia).
  assert (E3 : (Z.of_nat i <? Z.of_nat (length l)) = true) by (apply Z.ltb_lt; lia).
  rewrite E1, E2, E3, Nat2Z.id, Hx. reflexivity.
Qed.

Lemma index_at {A} (l : list A) (i : nat) (x : A) s :
  l !! i = Some x -> returns (index l (Z.of_nat i)) s x [] s.
Proof. intros Hx. unfold index. rewrite (getitem_lookup _ _ _ Hx). apply returns_ret. Qed.

Lemma conv2d_relu_returns ni nf ks stride s :
  never_raises ->
  exists conv relu block s',
    returns (conv2d_relu ni nf ks stride None false) s block
      (block_events (grad_enabled s) ni nf ks stride conv relu block) s'.
Proof.
  intros Hok. unfold conv2d_relu, conv2d.
  destruct (returns_call (New (nn_Conv2d ni nf ks stride (ks / 2) false)) s Hok)
    as (conv & s1 & H1).
  destruct (returns_call (New nn_ReLU) s1 Hok) as (relu & s2 & H2).
  destruct (returns_call (New (nn_Sequential [conv; relu])) s2 Hok) as (block & s3 & H3).
  rewrite (returns_grad _ _ _ _ _ H2) in H3.
  rewrite (returns_grad _ _ _ _ _ H1) in H2, H3.
  exists conv, relu, block, s3.
  eapply returns_eq.
  - eapply returns_seq; [exact H1 |].
    eapply returns_seq; [exact H2 |].
    eapply returns_seq; [apply returns_ret | exact H3].
  - reflexivity.
Qed.

Lemma PoolFlatten_returns s :
  never_raises ->
  exists pool flat pf s',
    returns PoolFlatten s pf
      [ Called (New (nn_AdaptiveAvgPool2d 1)) (grad_enabled s) (inr pool);
        Called (New (Lambda view_flatten)) (grad_enabled s) (inr flat);
        Called (New (nn_Sequential [pool; flat])) (grad_enabled s) (inr pf) ] s'.
Proof.
  intros Hok. unfold PoolFlatten, Flatten.
  destruct (returns_call (New (nn_AdaptiveAvgPool2d 1)) s Hok) as (pool & s1 & H1).
  destruct (returns_call (New (Lambda view_flatten)) s1 Hok) as (flat & s2 & H2).
  destruct (returns_call (New (nn_Sequential [pool; flat])) s2 Hok) as (pf & s3 & H3).
  rewrite (returns_grad _ _ _ _ _ H2) in H3.
  rewrite (returns_grad _ _ _ _ _ H1) in H2, H3.
  exists pool, flat, pf, s3.
  eapply returns_eq.
  - eapply returns_seq; [exact H1 |].
    eapply returns_seq; [exact H2 | exact H3].
  - reflexivity.
Qed.

(** The comprehension of [simple_cnn] over the indices [i .. i + k - 1]. *)
Lemma simple_cnn_comprehension actns kernel_szs strides k :
  never_raises ->
  forall i s,
    (i + k <= length strides)%nat ->
    (length strides + 1 <= length actns)%nat ->
    (length strides <= length kernel_szs)%nat ->
    exists blocks evs s',
      returns (comprehension_of (fun i =>
                 ni <- index actns i;
                 nf <- index actns (i + 1);
                 ks <- index kernel_szs i;
                 stride <- index strides i;
                 conv2d_relu ni nf ks stride None false)
               (map Z.of_nat (seq i k))) s blocks evs s' /\
      length blocks = k /\
      blocks_built (grad_enabled s) actns kernel_szs strides i blocks evs.
Proof.
  intros Hok. induction k as [| k IH]; intros i s Hi Ha Hk.
  - exists [], [], s. split; [apply returns_ret |]. split; [reflexivity | constructor].
  - destruct (lookup_lt_is_Some_2 actns i ltac:(lia)) as [ni Hni].
    destruct (lookup_lt_is_Some_2 actns (S i) ltac:(lia)) as [nf Hnf].
    destruct (lookup_lt_is_Some_2 kernel_szs i ltac:(lia)) as [ks Hks].
    destruct (lookup_lt_is_Some_2 strides i ltac:(lia)) as [stride Hst].
    destruct (conv2d_relu_returns ni nf ks stride s Hok) as (conv & relu & block & s1 & H1).
    destruct (IH (S i) s1 ltac:(lia) Ha Hk) as (blocks & evs & s2 & H2 & Hlen & Hb).
    rewrite (returns_grad _ _ _ _ _ H1) in Hb.
    exists (block :: blocks), (block_events (grad_enabled s) ni nf ks stride conv relu block
                                 ++ evs), s2.
    split; [| split; [simpl; congruence | econstructor; eassumption]].
    eapply returns_eq.
    + simpl. eapply returns_seq.
      * eapply returns_seq; [apply index_at, Hni |].
        replace (Z.of_nat i + 1) with (Z.of_nat (S i)) by lia.
        eapply returns_seq; [apply index_at, Hnf |].
        eapply returns_seq; [apply index_at, Hks |].
        eapply returns_seq; [apply index_at, Hst | exact H1].
      * eapply returns_seq; [exact H2 | apply returns_ret].
    + simpl. rewrite app_nil_r. reflexivity.
Qed.

Lemma getitem_found {A} (l : list A) (i : nat) (x : A) :
  getitem l (Z.of_nat i) = inr x -> l !! i = Some x.
Proof.
  unfold getitem.
  assert (E1 : (Z.of_nat i <? 0) = false) by (apply Z.ltb_ge; lia).
  rewrite E1, Nat2Z.id.
  destruct ((0 <=? Z.of_nat i) && (Z.of_nat i <? Z.of_nat (length l))).
  - destruct (l !! i); [intros [= ->]; reflexivity | discriminate].
  - discriminate.
Qed.

Lemma index_inv {A} (l : list A) (i : nat) (x : A) s s' :
  index l (Z.of_nat i) s = (inr x, s') -> l !! i = Some x /\ s' = s.
Proof.
  unfold index. destruct (getitem l (Z.of_nat i)) as [e | y] eqn:E.
  - discriminate.
  - intros H. apply ret_inv in H as [-> ->]. split; [apply getitem_found, E | reflexivity].
Qed.

Lemma conv2d_relu_returned ni nf ks stride s block s' :
  conv2d_relu ni nf ks stride None false s = (inr block, s') ->
  exists conv relu,
    extends s (block_events (grad_enabled s) ni nf ks stride conv relu block) s'.
Proof.
  unfold conv2d_relu, conv2d. intros E.
  apply bind_inv in E as (conv & s1 & E1 & E).
  apply bind_inv in E as (relu & s2 & E2 & E).
  apply bind_inv in E as (layers & s3 & E3 & E).
  apply ret_inv in E3 as [-> ->].
  inv_call E1; destruct E1 as [X1 _]. inv_call E2; destruct E2 as [X2 _].
  inv_call E; destruct E as [X3 _].
  rewrite (extends_grad _ _ _ X2) in X3.
  rewrite (extends_grad _ _ _ X1) in X2, X3.
  exists conv, relu.
  exact (extends_trans _ _ _ _ _ X1 (extends_trans _ _ _ _ _ X2 X3)).
Qed.

Lemma PoolFlatten_returned s pf s' :
  PoolFlatten s = (inr pf, s') ->
  exists pool flat,
    extends s
      [ Called (New (nn_AdaptiveAvgPool2d 1)) (grad_enabled s) (inr pool);
        Called (New (Lambda view_flatten)) (grad_enabled s) (inr flat);
        Called (New (nn_Sequential [pool; flat])) (grad_enabled s) (inr pf) ] s'.
Proof.
  unfold PoolFlatten, Flatten. intros E.
  apply bind_inv in E as (pool & s1 & E1 & E).
  apply bind_inv in E as (flat & s2 & E2 & E).
  inv_call E1; destruct E1 as [X1 _]. inv_call E2; destruct E2 as [X2 _].
  inv_call E; destruct E as [X3 _].
  rewrite (extends_grad _ _ _ X2) in X3.
  rewrite (extends_grad _ _ _ X1) in X2, X3.
  exists pool, flat.
  exact (extends_trans _ _ _ _ _ X1 (extends_trans _ _ _ _ _ X2 X3)).
Qed.

(** What the comprehension of [simple_cnn] has done when it returned. *)
Lemma simple_cnn_comprehension_returned actns kernel_szs strides k :
  forall i s blocks s',
    comprehension_of (fun i =>
        ni <- index actns i;
        nf <- index actns (i + 1);
        ks <- index kernel_szs i;
        stride <- index strides i;
        conv2d_relu ni nf ks stride None false)
      (map Z.of_nat (seq i k)) s = (inr blocks, s') ->
    exists evs,
      extends s evs s' /\
      length blocks = k /\
      blocks_built (grad_enabled s) actns kernel_szs strides i blocks evs.
Proof.
  induction k as [| k IH]; intros i s blocks s' E; simpl in E.
  - apply ret_inv in E as [-> ->]. exists [].
    split; [apply extends_refl |]. split; [reflexivity | constructor].
  - apply bind_inv in E as (block & s1 & E1 & E).
    apply bind_inv in E as (blocks' & s2 & E2 & E).
    apply ret_inv in E as [-> ->].
    apply bind_inv in E1 as (ni & s01 & Hni & E1). apply index_inv in Hni as [Hni ->].
    replace (Z.of_nat i + 1) with (Z.of_nat (S i)) in E1 by lia.
    apply bind_inv in E1 as (nf & s02 & Hnf & E1). apply index_inv in Hnf as [Hnf ->].
    apply bind_inv in E1 as (ks & s03 & Hks & E1). apply index_inv in Hks as [Hks ->].
    apply bind_inv in E1 as (stride & s04 & Hst & E1). apply index_inv in Hst as [Hst ->].
    apply conv2d_relu_returned in E1 as (conv & relu & X1).
    apply IH in E2 as (evs & X2 & Hlen & Hb).
    rewrite (extends_grad _ _ _ X1) in Hb.
    eexists. split; [exact (extends_trans _ _ _ _ _ X1 X2) |].
    split; [simpl; congruence | econstructor; eassumption].
Qed.


End Network.


(** The network of the notebook, as the small framework builds it. *)
Example simple_cnn_mnist :
  fst (simple_cnn (R := Toy.runtime None) [1; 16; 16; 10] [3; 3; 3] [2; 2; 2] (Toy.s0 None)) =
  inr (Toy.LSequential
         [ Toy.LSequential [Toy.LConv2d 1 16 3 2 1 false; Toy.LReLU];
           Toy.LSequential [Toy.LConv2d 16 16 3 2 1 false; Toy.LReLU];
           Toy.LSequential [Toy.LConv2d 16 10 3 2 1 false; Toy.LReLU];
           Toy.LSequential [Toy.LAdaptiveAvgPool2d 1; Toy.LLambda view_flatten] ]).
Proof. vm_compute. reflexivity. Qed.

(** * Edges, invariants and compositions *)

Section Bounds.
Context {F : Framework} {R : Runtime}.

Lemma getitem_missing {A} (l : list A) (i : nat) :
  (length l <= i)%nat ->
  getitem l (Z.of_nat i) = inl (IndexError "list index out of range").
Proof.
  intros Hi. unfold getitem.
  assert (E1 : (Z.of_nat i <? 0) = false) by (apply Z.ltb_ge; lia).
  assert (E3 : (Z.of_nat i <? Z.of_nat (length l)) = false) by (apply Z.ltb_ge; lia).
  rewrite E1, E3, andb_false_r. reflexivity.
Qed.

Lemma index_missing {A} (l : list A) (i : nat) s :
  (length l <= i)%nat ->
  index l (Z.of_nat i) s = (inl (IndexError "list index out of range"), s).
Proof. intros Hi. unfold index. rewrite (getitem_missing l i Hi). reflexivity. Qed.

Lemma index_found {A} (l : list A) (i : nat) (x : A) s :
  l !! i = Some x -> index l (Z.of_nat i) s = (inr x, s).
Proof. intros Hx. destruct (index_at l i x s Hx) as [E _]. exact E. Qed.

Lemma blocks_built_lengths g actns kernel_szs strides i blocks evs :
  blocks_built g actns kernel_szs strides i blocks evs ->
  blocks <> [] ->
  (i + length blocks + 1 <= length actns /\ i + length blocks <= length kernel_szs)%nat.
Proof.
  induction 1 as [i | i ni nf ks stride conv relu block blocks evs Hni Hnf Hks Hst _ IH];
    intros Hne; [contradiction |].
  apply lookup_lt_Some in Hnf, Hks. simpl.
  destruct blocks as [| b blocks]; [simpl; lia |].
  destruct IH as [IH1 IH2]; [discriminate |]. simpl in *. lia.
Qed.

(** The comprehension of [simple_cnn] when a list is too short: the blocks
    before the first missing entry are built, then the indexing raises. *)
Lemma simple_cnn_comprehension_fails actns kernel_szs strides k :
  never_raises ->
  forall i s,
    (i + k <= length strides)%nat ->
    (0 < k)%nat ->
    (i <= length actns - 1 /\ i <= length kernel_szs)%nat ->
    (length actns < i + k + 1 \/ length kernel_szs < i + k)%nat ->
    exists blocks evs s',
      comprehension_of (fun i =>
          ni <- index actns i;
          nf <- index actns (i + 1);
          ks <- index kernel_szs i;
          stride <- index strides i;
          conv2d_relu ni nf ks stride None false)
        (map Z.of_nat (seq i k)) s =
        (inl (IndexError "list index out of range"), s') /\
      extends s evs s' /\
      blocks_built (grad_enabled s) actns kernel_szs strides i blocks evs /\
      (i + length blocks = Nat.min (length actns - 1) (length kernel_szs))%nat.
Proof.
  intros Hok. induction k as [| k IH]; intros i s Hi Hk Hinv Hshort; [lia |].
  simpl.
  destruct (le_lt_dec (length actns) i) as [Ha0 | Ha0].
  { exists [], [], s. split; [| split; [apply extends_refl | split; [constructor | simpl; lia]]].
    rewrite (bind_inl _ _ s (IndexError "list index out of range") s); [reflexivity |].
    rewrite (bind_inl _ _ s (IndexError "list index out of range") s); [reflexivity |].
    apply index_missing, Ha0. }
  destruct (lookup_lt_is_Some_2 actns i Ha0) as [ni Hni].
  destruct (le_lt_dec (length actns) (S i)) as [Ha1 | Ha1].
  { exists [], [], s. split; [| split; [apply extends_refl | split; [constructor | simpl; lia]]].
    rewrite (bind_inl _ _ s (IndexError "list index out of range") s); [reflexivity |].
    rewrite (bind_inr _ _ _ _ _ (index_found actns i ni s Hni)).
    replace (Z.of_nat i + 1) with (Z.of_nat (S i)) by lia.
    rewrite (bind_inl _ _ s (IndexError "list index out of range") s); [reflexivity |].
    apply index_missing, Ha1. }
  destruct (lookup_lt_is_Some_2 actns (S i) Ha1) as [nf Hnf].
  destruct (le_lt_dec (length kernel_szs) i) as [Hk0 | Hk0].
  { exists [], [], s. split; [| split; [apply extends_refl | split; [constructor | simpl; lia]]].
    rewrite (bind_inl _ _ s (IndexError "list index out of range") s); [reflexivity |].
    rewrite (bind_inr _ _ _ _ _ (index_found actns i ni s Hni)).
    replace (Z.of_nat i + 1) with (Z.of_nat (S i)) by lia.
    rewrite (bind_inr _ _ _ _ _ (index_found actns (S i) nf s Hnf)).
    rewrite (bind_inl _ _ s (IndexError "list index out of range") s); [reflexivity |].
    apply index_missing, Hk0. }
  destruct (lookup_lt_is_Some_2 kernel_szs i Hk0) as [ks Hks].
  destruct (lookup_lt_is_Some_2 strides i ltac:(lia)) as [stride Hst].
  destruct (conv2d_relu_returns ni nf ks stride s Hok) as (conv & relu & block & s1 & H1 & X1).
  destruct (IH (S i) s1 ltac:(lia) ltac:(lia) ltac:(lia) ltac:(lia))
    as (blocks & evs & s2 & E2 & X2 & Hb & Hlen).
  rewrite (extends_grad _ _ _ X1) in Hb.
  exists (block :: blocks), (block_events (grad_enabled s) ni nf ks stride conv relu block ++ evs),
    s2.
  split; [| split; [exact (extends_trans _ _ _ _ _ X1 X2) |
                    split; [econstructor; eassumption | simpl; lia]]].
  assert (Eblock : bind (index actns (Z.of_nat i)) (fun ni =>
                     bind (index actns (Z.of_nat i + 1)) (fun nf =>
                       bind (index kernel_szs (Z.of_nat i)) (fun ks =>
                         bind (index strides (Z.of_nat i)) (fun stride =>
                           conv2d_relu ni nf ks stride None false)))) s = (inr block, s1)).
  { rewrite (bind_inr _ _ _ _ _ (index_found actns i ni s Hni)).
    replace (Z.of_nat i + 1) with (Z.of_nat (S i)) by lia.
    rewrite (bind_inr _ _ _ _ _ (index_found actns (S i) nf s Hnf)).
    rewrite (bind_inr _ _ _ _ _ (index_found kernel_szs i ks s Hks)).
    rewrite (bind_inr _ _ _ _ _ (index_found strides i stride s Hst)).
    exact H1. }
  rewrite (bind_inr _ _ _ _ _ Eblock).
  rewrite (bind_inl _ _ _ _ _ E2). reflexivity.
Qed.


End Bounds.

Section Layers.
Context {F : Framework} {R : Runtime}.


End Layers.

Section FitEdges.
Context {F : Framework} {R : Runtime}.

Lemma range_nonpositive (n : Z) : n <= 0 -> range n = [].
Proof. intros Hn. unfold range. replace (Z.to_nat n) with 0%nat by lia. reflexivity. Qed.

Lemma range_positive (n : Z) : 1 <= n -> exists es, range n = 0 :: es.
Proof.
  intros Hn. unfold range. destruct (Z.to_nat n) as [| k] eqn:E; [lia |].
  simpl. eauto.
Qed.

(** A batch that is a tuple or list of other than two items cannot be
    unpacked into [xb, yb]. *)
Lemma unpack2_not_a_pair b s :
  is_listy b = true -> length (items b) <> 2%nat ->
  exists msg, unpack2 b s = (inl (ValueError msg), s).
Proof.
  intros Hb Hlen.
  destruct b as [t | [| x [| y [| z os]]] | [| x [| y [| z os]]]];
    simpl in *; try discriminate; try (exfalso; apply Hlen; reflexivity);
    eexists; reflexivity.
Qed.

(** X3: [fit] on a training loader whose first batch is not a pair: once
    [model.train()] has returned and the traversal has started, the
    unpacking of that batch raises [ValueError]; no forward pass is made
    and nothing else happens. *)
Theorem fit_batch_not_a_pair epochs model loss_fn opt train_dl (valid_dl : Loader)
    s s1 b bs s2 :
  1 <= epochs ->
  call (Train model) s = (inr tt, s1) ->
  call (Iterate train_dl) s1 = (inr (b :: bs), s2) ->
  is_listy b = true ->
  length (items b) <> 2%nat ->
  exists msg,
    fit epochs model loss_fn opt (ExtDL train_dl) valid_dl s = (inl (ValueError msg), s2).
Proof.
  intros Hn E1 E2 Hb Hlen. destruct (range_positive epochs Hn) as [es Hes].
  destruct (unpack2_not_a_pair b s2 Hb Hlen) as [msg Hmsg].
  exists msg. unfold fit. rewrite Hes. simpl.
  rewrite (bind_inr (ret 0) _ s 0 s eq_refl).
  apply bind_inl.
  rewrite (bind_inr _ _ _ _ _ E1).
  assert (Eit : iter (ExtDL train_dl) s1 = (inr (map ret (b :: bs)), s2))
    by (simpl; rewrite (bind_inr _ _ _ _ _ E2); reflexivity).
  rewrite (bind_inr _ _ _ _ _ Eit).
  apply bind_inl. simpl.
  rewrite (bind_inr (ret b) _ s2 b s2 eq_refl).
  apply bind_inl. apply bind_inl. exact Hmsg.
Qed.


End FitEdges.

(** ** The autograd mode *)

Section Modes.
Context {F : Framework} {R : Runtime}.
Variable Q : bool -> Event -> Prop.
Hypothesis HQ : forall (c : Call) g r, trains c = false -> Q g (Called c g r).

Lemma runs_silent {A} (m : M A) :
  (forall s, trace (snd (m s)) = trace s /\ grad_enabled (snd (m s)) = grad_enabled s) ->
  runs Q m.
Proof.
  intros Hm s. destruct (Hm s) as [T G]. exists []. rewrite app_nil_r.
  split; [exact T |]. split; [exact G | constructor].
Qed.

Lemma runs_ret {A} (a : A) : runs Q (ret a).
Proof. apply runs_silent. intros s. split; reflexivity. Qed.

Lemma runs_raise {A} (e : Exn) : runs Q (raise (A := A) e).
Proof. apply runs_silent. intros s. split; reflexivity. Qed.

Lemma runs_bind {A B} (m : M A) (k : A -> M B) :
  runs Q m ->
  (forall s a s', m s = (inr a, s') -> runs Q (k a)) ->
  runs Q (bind m k).
Proof.
  intros Hm Hk s. destruct (Hm s) as (evs1 & T1 & G1 & Q1). unfold bind.
  destruct (m s) as [[e | a] s1] eqn:E; cbn [fst snd] in *.
  - exists evs1. auto.
  - destruct (Hk s a s1 E s1) as (evs2 & T2 & G2 & Q2).
    exists (evs1 ++ evs2). rewrite T2, T1, G2, G1, app_assoc.
    split; [reflexivity |]. split; [reflexivity |].
    apply Forall_app. split; [exact Q1 |]. rewrite G1 in Q2. exact Q2.
Qed.

Lemma runs_call_of (c : Call) :
  (forall g r, Q g (Called c g r)) -> runs Q (call c).
Proof.
  intros Hc s. rewrite call_run. cbn [fst snd trace grad_enabled].
  eexists. split; [reflexivity |]. split; [reflexivity |].
  constructor; [apply Hc | constructor].
Qed.

Lemma runs_call (c : Call) : trains c = false -> runs Q (call c).
Proof. intros Hc. apply runs_call_of. intros g r. apply HQ, Hc. Qed.

Ltac r_call :=
  match goal with |- runs _ (call ?c) => apply (runs_call c); reflexivity end.

Lemma runs_comprehension_of {A B} (f : A -> M B) (l : list A) :
  Forall (fun x => runs Q (f x)) l -> runs Q (comprehension_of f l).
Proof.
  induction 1 as [| x l Hx _ IH]; simpl; [apply runs_ret |].
  apply runs_bind; [exact Hx | intros _ y _ _].
  apply runs_bind; [exact IH | intros _ ys _ _]. apply runs_ret.
Qed.

Lemma runs_for {A} (it : list (M A)) (body : A -> M unit) :
  Forall (runs Q) it -> (forall a, runs Q (body a)) -> runs Q (for_ it body).
Proof.
  intros Hit Hbody. induction Hit as [| next it Hnext _ IH]; simpl; [apply runs_ret |].
  apply runs_bind; [exact Hnext | intros _ x _ _].
  apply runs_bind; [apply Hbody | intros _ _ _ _]. exact IH.
Qed.

Lemma runs_comprehension {A B} (it : list (M A)) (f : A -> M B) :
  Forall (runs Q) it -> (forall a, runs Q (f a)) -> runs Q (comprehension it f).
Proof.
  intros Hit Hf. induction Hit as [| next it Hnext _ IH]; simpl; [apply runs_ret |].
  apply runs_bind; [exact Hnext | intros _ x _ _].
  apply runs_bind; [apply Hf | intros _ y _ _].
  apply runs_bind; [exact IH | intros _ ys _ _]. apply runs_ret.
Qed.

Lemma runs_unpack2 v : runs Q (unpack2 v).
Proof.
  unfold unpack2. apply runs_bind.
  - destruct v; [| apply runs_ret | apply runs_ret].
    apply runs_bind; [r_call | intros _ ts _ _; apply runs_ret].
  - intros _ [| a [| b [| c vs]]] _ _; first [apply runs_ret | apply runs_raise].
Qed.

Lemma runs_unzip2 {A B} (rs : list (A * B)) : runs Q (unzip2 rs).
Proof. destruct rs; [apply runs_raise | apply runs_ret]. Qed.

Lemma runs_loss_batch_eval model xb yb loss_fn :
  runs Q (loss_batch model xb yb loss_fn None).
Proof.
  unfold loss_batch.
  apply runs_bind; [r_call | intros _ out _ _].
  apply runs_bind; [r_call | intros _ loss _ _].
  apply runs_bind; [apply runs_ret | intros _ _ _ _].
  apply runs_bind; [r_call | intros _ v _ _]. apply runs_ret.
Qed.

Lemma runs_to_device b : forall device, runs Q (to_device b device).
Proof.
  induction b as [t | os IH | os IH] using Tensors_nested_ind; intros device; simpl.
  - apply runs_bind; [r_call | intros _ t' _ _; apply runs_ret].
  - apply runs_bind; [| intros _ rs _ _; apply runs_ret].
    apply runs_comprehension_of.
    induction IH as [| o os Ho _ IHos]; constructor; [apply Ho | exact IHos].
  - apply runs_bind; [| intros _ rs _ _; apply runs_ret].
    apply runs_comprehension_of.
    induction IH as [| o os Ho _ IHos]; constructor; [apply Ho | exact IHos].
Qed.

Lemma runs_get_DeviceDataLoader r : runs Q (get_DeviceDataLoader r).
Proof.
  apply runs_silent. intros s. unfold get_DeviceDataLoader.
  destruct (heap s !! r) as [[] |]; split; reflexivity.
Qed.

Lemma runs_get_DataBunch r : runs Q (get_DataBunch r).
Proof.
  apply runs_silent. intros s. unfold get_DataBunch.
  destruct (heap s !! r) as [[] |]; split; reflexivity.
Qed.

Lemma runs_get_Learner r : runs Q (get_Learner r).
Proof.
  apply runs_silent. intros s. unfold get_Learner.
  destruct (heap s !! r) as [[] |]; split; reflexivity.
Qed.

Lemma runs_proc_batch self b : runs Q (DeviceDataLoader_proc_batch self b).
Proof.
  unfold DeviceDataLoader_proc_batch.
  apply runs_bind; [apply runs_get_DeviceDataLoader | intros _ o _ _].
  apply runs_to_device.
Qed.

Lemma runs_iter dl : runs Q (iter dl).
Proof.
  destruct dl as [dl | r]; simpl.
  - apply runs_bind; [r_call | intros _ bs _ _; apply runs_ret].
  - unfold DeviceDataLoader_iter, set_gen.
    apply runs_bind; [apply runs_get_DeviceDataLoader | intros _ o _ _].
    apply runs_bind; [r_call | intros _ bs _ _].
    apply runs_bind; [| intros _ _ _ _; apply runs_ret].
    apply runs_bind; [apply runs_get_DeviceDataLoader | intros _ o' _ _].
    apply runs_silent. intros s. split; reflexivity.
Qed.

Lemma iter_thunks_run dl s it s' : iter dl s = (inr it, s') -> Forall (runs Q) it.
Proof.
  destruct dl as [dl | r]; simpl; intros E.
  - apply bind_inv in E as (bs & s1 & _ & E). apply ret_inv in E as [-> _].
    apply Forall_map, Forall_forall. intros b _. apply runs_ret.
  - apply DeviceDataLoader_iter_items in E as [bs ->].
    apply Forall_map, Forall_forall. intros b _. apply runs_proc_batch.
Qed.

End Modes.

Section Autograd.
Context {F : Framework} {R : Runtime}.

Lemma at_mode_quiet (c : Call) g r : trains c = false -> at_mode g (Called c g r).
Proof. intros Hc. simpl. reflexivity. Qed.

Lemma not_training_quiet (c : Call) g r : trains c = false -> not_training g (Called c g r).
Proof. intros Hc. exact Hc. Qed.

Ltac r_call_of :=
  match goal with
  | |- runs ?Q (call ?c) => apply (runs_call_of Q c); intros; simpl; reflexivity
  end.

Lemma runs_loss_batch model xb yb loss_fn opt :
  runs at_mode (loss_batch model xb yb loss_fn opt).
Proof.
  destruct opt as [opt |]; [| apply runs_loss_batch_eval, at_mode_quiet].
  unfold loss_batch.
  apply runs_bind; [r_call_of | intros _ out _ _].
  apply runs_bind; [r_call_of | intros _ loss _ _].
  apply runs_bind.
  - apply runs_bind; [r_call_of | intros _ _ _ _].
    apply runs_bind; [r_call_of | intros _ _ _ _].
    r_call_of.
  - intros _ _ _ _.
    apply runs_bind; [r_call_of | intros _ v _ _]. apply runs_ret.
Qed.

(** The block [with torch.no_grad()] around a body that makes no training
    call. *)
Lemma runs_with_no_grad {A} (body : M A) :
  runs not_training body -> runs at_mode (with_no_grad body).
Proof.
  intros Hb s. unfold with_no_grad.
  destruct (Hb (log NoGradEnter (set_grad_enabled false s))) as (evs & T & G & Hq).
  destruct (body (log NoGradEnter (set_grad_enabled false s))) as [r s1].
  cbn [fst snd log set_grad_enabled trace grad_enabled] in *.
  exists ([NoGradEnter] ++ evs ++ [NoGradExit]).
  split; [rewrite T, <- !app_assoc; reflexivity |]. split; [reflexivity |].
  apply Forall_app. split; [repeat constructor |].
  apply Forall_app. split; [| repeat constructor].
  eapply Forall_impl; [exact Hq |].
  intros [c g' r' | |] Hev; simpl in *; [| exact I | exact I].
  intros Hc. rewrite Hev in Hc. discriminate Hc.
Qed.

Lemma runs_fit epochs model loss_fn opt train_dl valid_dl :
  runs at_mode (fit epochs model loss_fn opt train_dl valid_dl).
Proof.
  unfold fit. apply runs_for.
  { apply Forall_map, Forall_forall. intros e _. apply runs_ret. }
  intros epoch.
  apply runs_bind; [r_call_of | intros _ _ _ _].
  apply runs_bind; [apply runs_iter, at_mode_quiet | intros s1 it s2 Hit].
  apply runs_bind.
  { apply runs_for.
    - exact (iter_thunks_run at_mode at_mode_quiet _ _ _ _ Hit).
    - intros b.
      apply runs_bind; [apply runs_unpack2, at_mode_quiet | intros _ [xb yb] _ _].
      apply runs_bind; [apply runs_loss_batch | intros _ [loss n] _ _].
      apply runs_ret. }
  intros _ _ _ _.
  apply runs_bind; [r_call_of | intros _ _ _ _].
  apply runs_bind.
  { apply runs_with_no_grad.
    apply runs_bind; [apply runs_iter, not_training_quiet | intros s3 vit s4 Hvit].
    apply runs_bind; [| intros _ rs _ _; apply runs_unzip2].
    apply runs_comprehension.
    - exact (iter_thunks_run not_training not_training_quiet _ _ _ _ Hvit).
    - intros b.
      apply runs_bind; [apply runs_unpack2, not_training_quiet | intros _ [xb yb] _ _].
      apply runs_loss_batch_eval, not_training_quiet. }
  intros _ [losses nums] _ _. r_call_of.
Qed.

Lemma runs_Learner_fit self epochs lr opt_fn :
  runs at_mode (Learner_fit self epochs lr opt_fn).
Proof.
  unfold Learner_fit.
  apply runs_bind; [apply runs_get_Learner | intros _ o _ _].
  apply runs_bind; [r_call_of | intros _ ps _ _].
  apply runs_bind; [r_call_of | intros _ opt _ _].
  apply runs_bind; [apply runs_get_DataBunch | intros _ d _ _].
  apply runs_fit.
Qed.



End Autograd.

(** ** The objects during training *)

Section Fields.
Context {F : Framework} {R : Runtime}.

Lemma keeps_declared_of_heap {A} (m : M A) : keeps_heap m -> keeps_declared m.
Proof. intros Hm s r. rewrite Hm. reflexivity. Qed.

Lemma keeps_declared_bind {A B} (m : M A) (k : A -> M B) :
  keeps_declared m ->
  (forall s a s', m s = (inr a, s') -> keeps_declared (k a)) ->
  keeps_declared (bind m k).
Proof.
  intros Hm Hk s r. unfold bind. specialize (Hm s r).
  destruct (m s) as [[e | a] s1] eqn:E; cbn [snd] in *; [exact Hm |].
  rewrite (Hk s a s1 E s1 r). exact Hm.
Qed.

Lemma keeps_declared_ret {A} (a : A) : keeps_declared (ret a).
Proof. apply keeps_declared_of_heap, keeps_ret. Qed.

Lemma keeps_declared_call (c : Call) : keeps_declared (call c).
Proof. apply keeps_declared_of_heap. exact (keeps_call c). Qed.

Ltac k_call :=
  match goal with |- keeps_heap (call ?c) => exact (keeps_call c) end.

Ltac kd_call :=
  match goal with |- keeps_declared (call ?c) => exact (keeps_declared_call c) end.

Lemma keeps_get_DataBunch r : keeps_heap (get_DataBunch r).
Proof. intros s. unfold get_DataBunch. destruct (heap s !! r) as [[] |]; reflexivity. Qed.

Lemma keeps_get_Learner r : keeps_heap (get_Learner r).
Proof. intros s. unfold get_Learner. destruct (heap s !! r) as [[] |]; reflexivity. Qed.

Lemma keeps_unzip2 {A B} (rs : list (A * B)) : keeps_heap (unzip2 rs).
Proof. intros s. destruct rs; reflexivity. Qed.

Lemma keeps_loss_batch model xb yb loss_fn opt :
  keeps_heap (loss_batch model xb yb loss_fn opt).
Proof.
  unfold loss_batch.
  apply keeps_bind; [k_call | intros out].
  apply keeps_bind; [k_call | intros loss].
  apply keeps_bind.
  - destruct opt as [opt |]; [| apply keeps_ret].
    apply keeps_bind; [k_call | intros _].
    apply keeps_bind; [k_call | intros _]. k_call.
  - intros _. apply keeps_bind; [k_call | intros v; apply keeps_ret].
Qed.

(** [self.gen = g] changes the [gen] attribute only. *)
Lemma keeps_declared_set_gen self g : keeps_declared (set_gen self g).
Proof.
  intros s r. unfold set_gen, bind, get_DeviceDataLoader.
  destruct (heap s !! self) as [[o | o | o | o] |] eqn:Hself; try reflexivity.
  cbn [snd store heap].
  destruct (decide (r = self)) as [-> |].
  - rewrite lookup_insert_eq, Hself. reflexivity.
  - rewrite lookup_insert_ne by congruence. reflexivity.
Qed.

Lemma keeps_declared_iter dl : keeps_declared (iter dl).
Proof.
  destruct dl as [dl | r]; simpl.
  - apply keeps_declared_bind; [kd_call | intros _ bs _ _].
    apply keeps_declared_ret.
  - unfold DeviceDataLoader_iter.
    apply keeps_declared_bind;
      [apply keeps_declared_of_heap, keeps_get_DeviceDataLoader | intros _ o _ _].
    apply keeps_declared_bind; [kd_call | intros _ bs _ _].
    apply keeps_declared_bind; [apply keeps_declared_set_gen | intros _ _ _ _].
    apply keeps_declared_ret.
Qed.

Lemma iter_thunks_keep dl s it s' : iter dl s = (inr it, s') -> Forall keeps_declared it.
Proof.
  destruct dl as [dl | r]; simpl; intros E.
  - apply bind_inv in E as (bs & s1 & _ & E). apply ret_inv in E as [-> _].
    apply Forall_map, Forall_forall. intros b _. apply keeps_declared_ret.
  - apply DeviceDataLoader_iter_items in E as [bs ->].
    apply Forall_map, Forall_forall. intros b _.
    apply keeps_declared_of_heap, keeps_DeviceDataLoader_proc_batch.
Qed.

Lemma keeps_declared_for {A} (it : list (M A)) (body : A -> M unit) :
  Forall keeps_declared it -> (forall a, keeps_declared (body a)) ->
  keeps_declared (for_ it body).
Proof.
  intros Hit Hbody. induction Hit as [| next it Hnext _ IH]; simpl;
    [apply keeps_declared_ret |].
  apply keeps_declared_bind; [exact Hnext | intros _ x _ _].
  apply keeps_declared_bind; [apply Hbody | intros _ _ _ _]. exact IH.
Qed.

Lemma keeps_declared_comprehension {A B} (it : list (M A)) (f : A -> M B) :
  Forall keeps_declared it -> (forall a, keeps_declared (f a)) ->
  keeps_declared (comprehension it f).
Proof.
  intros Hit Hf. induction Hit as [| next it Hnext _ IH]; simpl;
    [apply keeps_declared_ret |].
  apply keeps_declared_bind; [exact Hnext | intros _ x _ _].
  apply keeps_declared_bind; [apply Hf | intros _ y _ _].
  apply keeps_declared_bind; [exact IH | intros _ ys _ _]. apply keeps_declared_ret.
Qed.

Lemma keeps_declared_with_no_grad {A} (body : M A) :
  keeps_declared body -> keeps_declared (with_no_grad body).
Proof.
  intros Hb s r. unfold with_no_grad.
  specialize (Hb (log NoGradEnter (set_grad_enabled false s)) r).
  destruct (body (log NoGradEnter (set_grad_enabled false s))) as [a s1].
  exact Hb.
Qed.

Lemma keeps_declared_fit epochs model loss_fn opt train_dl valid_dl :
  keeps_declared (fit epochs model loss_fn opt train_dl valid_dl).
Proof.
  unfold fit. apply keeps_declared_for.
  { apply Forall_map, Forall_forall. intros e _. apply keeps_declared_ret. }
  intros epoch.
  apply keeps_declared_bind; [kd_call | intros _ _ _ _].
  apply keeps_declared_bind; [apply keeps_declared_iter | intros s1 it s2 Hit].
  apply keeps_declared_bind.
  { apply keeps_declared_for; [exact (iter_thunks_keep _ _ _ _ Hit) | intros b].
    apply keeps_declared_of_heap.
    apply keeps_bind; [apply keeps_unpack2 | intros [xb yb]].
    apply keeps_bind; [apply keeps_loss_batch | intros [loss n]]. apply keeps_ret. }
  intros _ _ _ _.
  apply keeps_declared_bind; [kd_call | intros _ _ _ _].
  apply keeps_declared_bind.
  { apply keeps_declared_with_no_grad.
    apply keeps_declared_bind; [apply keeps_declared_iter | intros s3 vit s4 Hvit].
    apply keeps_declared_bind;
      [| intros _ rs _ _; apply keeps_declared_of_heap, keeps_unzip2].
    apply keeps_declared_comprehension; [exact (iter_thunks_keep _ _ _ _ Hvit) | intros b].
    apply keeps_declared_of_heap.
    apply keeps_bind; [apply keeps_unpack2 | intros [xb yb]]. apply keeps_loss_batch. }
  intros _ [losses nums] _ _. kd_call.
Qed.

Lemma keeps_declared_Learner_fit self epochs lr opt_fn :
  keeps_declared (Learner_fit self epochs lr opt_fn).
Proof.
  unfold Learner_fit.
  apply keeps_declared_bind;
    [apply keeps_declared_of_heap, keeps_get_Learner | intros _ o _ _].
  apply keeps_declared_bind; [kd_call | intros _ ps _ _].
  apply keeps_declared_bind; [kd_call | intros _ opt _ _].
  apply keeps_declared_bind;
    [apply keeps_declared_of_heap, keeps_get_DataBunch | intros _ d _ _].
  apply keeps_declared_fit.
Qed.

Lemma declared_Learner x o : declared x = OLearner o -> x = OLearner o.
Proof. destruct x; simpl; congruence. Qed.

Lemma declared_DataBunch x o : declared x = ODataBunch o -> x = ODataBunch o.
Proof. destruct x; simpl; congruence. Qed.

(** X7: Training leaves the objects as they were declared: in every run of
    [fit] and of [Learner.fit], to its end or to a failure, no object is
    created and no declared field of a [DatasetTfm], [DeviceDataLoader],
    [DataBunch] or [Learner] changes; only the [gen] attribute of the
    loaders iterated over may differ.  In particular the learner still
    holds the same data and model: the optimizer [Learner.fit] builds is
    not stored on it. *)
Theorem training_keeps_declared_fields s :
  (forall epochs model loss_fn opt train_dl valid_dl r,
     declared <$> (heap (snd (fit epochs model loss_fn opt train_dl valid_dl s)) !! r) =
     declared <$> (heap s !! r)) /\
  (forall self epochs lr opt_fn r,
     declared <$> (heap (snd (Learner_fit self epochs lr opt_fn s)) !! r) =
     declared <$> (heap s !! r)) /\
  (forall self epochs lr opt_fn o,
     heap s !! self = Some (OLearner o) ->
     heap (snd (Learner_fit self epochs lr opt_fn s)) !! self = Some (OLearner o)).
Proof.
  split; [| split].
  - intros epochs model loss_fn opt train_dl valid_dl r. apply keeps_declared_fit.
  - intros self epochs lr opt_fn r. apply keeps_declared_Learner_fit.
  - intros self epochs lr opt_fn o Hself.
    pose proof (keeps_declared_Learner_fit self epochs lr opt_fn s self) as K.
    rewrite Hself in K. simpl in K.
    destruct (heap (snd (Learner_fit self epochs lr opt_fn s)) !! self) as [x |];
      [| discriminate K].
    simpl in K. injection K as K. apply declared_Learner in K. rewrite K. reflexivity.
Qed.

End Fields.

(** ** The wrappers at their edges *)

Section Wrappers.
Context {F : Framework} {R : Runtime}.

(** X8: [DatasetTfm.__getitem__] when [ds[idx]] is a tuple or list of other
    than two items: it cannot be unpacked into [x, y], which raises
    [ValueError]; the transform is not applied and nothing is done after
    [ds[idx]]. *)
Theorem DatasetTfm_getitem_not_a_pair self ds tfm idx s item s1 :
  heap s !! self = Some (ODatasetTfm (mkDatasetTfm ds tfm)) ->
  call (DsGetItem ds idx) s = (inr item, s1) ->
  is_listy item = true ->
  length (items item) <> 2%nat ->
  exists msg, DatasetTfm_getitem self idx s = (inl (ValueError msg), s1).
Proof.
  intros Hself E Hitem Hlen.
  destruct (unpack2_not_a_pair item s1 Hitem Hlen) as [msg Hmsg].
  exists msg. unfold DatasetTfm_getitem.
  rewrite (bind_inr _ _ _ _ _ (get_DatasetTfm_at _ _ _ Hself)). cbn [self_ds].
  rewrite (bind_inr _ _ _ _ _ E).
  apply bind_inl, Hmsg.
Qed.

Lemma alloc_inv (o : Obj) s r s' :
  alloc o s = (inr r, s') ->
  heap s !! r = None /\
  s' = mkSt (world s) (grad_enabled s) (<[r := o]> (heap s)) (trace s).
Proof.
  unfold alloc. intros [= <- <-].
  split; [apply not_elem_of_dom, is_fresh | reflexivity].
Qed.

Lemma alloc_run (o : Obj) s :
  alloc o s =
  (inr (fresh (dom (heap s))),
   mkSt (world s) (grad_enabled s) (<[fresh (dom (heap s)) := o]> (heap s)) (trace s)).
Proof. reflexivity. Qed.

Lemma check_keyword_ok name kwargs s :
  existsb (String.eqb name) (map fst kwargs) = false ->
  check_keyword name kwargs s = (inr tt, s).
Proof. intros Hkw. unfold check_keyword. rewrite Hkw. reflexivity. Qed.

Lemma DeviceDataLoader_create_returns args device kwargs s :
  never_raises ->
  exists r s', DeviceDataLoader_create args device kwargs s = (inr r, s').
Proof.
  intros Hok. unfold DeviceDataLoader_create, DeviceDataLoader_init.
  destruct (returns_call (NewDataLoader args kwargs) s Hok) as (dl & s1 & E1 & _).
  rewrite (bind_inr _ _ _ _ _ E1), alloc_run. eauto.
Qed.

Lemma check_keyword_inv name kwargs s u s' :
  check_keyword name kwargs s = (inr u, s') ->
  existsb (String.eqb name) (map fst kwargs) = false /\ s' = s.
Proof.
  unfold check_keyword.
  destruct (existsb (String.eqb name) (map fst kwargs)); [discriminate |].
  intros E. apply ret_inv in E as [_ ->]. auto.
Qed.

Lemma DeviceDataLoader_create_inv args device kwargs s r s' :
  DeviceDataLoader_create args device kwargs s = (inr r, s') ->
  exists dl s1,
    call (NewDataLoader args kwargs) s = (inr dl, s1) /\
    heap s !! r = None /\
    s' = mkSt (world s1) (grad_enabled s) (<[r := ODeviceDataLoader
                                                  (mkDeviceDataLoader dl device None)]> (heap s))
           (trace s ++ [Called (NewDataLoader args kwargs) (grad_enabled s) (inr dl)]).
Proof.
  unfold DeviceDataLoader_create, DeviceDataLoader_init. intros E.
  apply bind_inv in E as (dl & s1 & E1 & E2).
  exists dl, s1. split; [exact E1 |].
  apply alloc_inv in E2 as [Hr ->].
  inv_call E1. destruct E1 as [(T & G & Hh) _].
  rewrite Hh in Hr. rewrite T, G, Hh. auto.
Qed.

(** What [DataBunch.create] has done when it returned. *)
Lemma DataBunch_create_returned train_ds valid_ds bs train_tfm valid_tfm device kwargs
    s data s' :
  DataBunch_create train_ds valid_ds bs train_tfm valid_tfm device kwargs s =
    (inr data, s') ->
  exists tds tdl vds vdl train_loader valid_loader,
    NoDup [tds; tdl; vds; vdl; data] /\
    Forall (fun r => heap s !! r = None) [tds; tdl; vds; vdl; data] /\
    heap s' =
      <[data := ODataBunch (mkDataBunch (DevDL tdl) (DevDL vdl) device)]>
        (<[vdl := ODeviceDataLoader (mkDeviceDataLoader valid_loader device None)]>
           (<[vds := ODatasetTfm (mkDatasetTfm valid_ds valid_tfm)]>
              (<[tdl := ODeviceDataLoader (mkDeviceDataLoader train_loader device None)]>
                 (<[tds := ODatasetTfm (mkDatasetTfm train_ds train_tfm)]> (heap s))))) /\
    trace s' = trace s ++
      [ Called (NewDataLoader [ARef tds; AInt bs]
                  (("shuffle"%string, ABool true) :: kwargs))
          (grad_enabled s) (inr train_loader);
        Called (NewDataLoader [ARef vds; AInt (bs * 2)]
                  (("shuffle"%string, ABool false) :: kwargs))
          (grad_enabled s) (inr valid_loader) ] /\
    existsb (String.eqb "shuffle") (map fst kwargs) = false /\
    grad_enabled s' = grad_enabled s /\
    (exists g w, fst (fw (NewDataLoader [ARef tds; AInt bs]
                            (("shuffle"%string, ABool true) :: kwargs)) g w) =
                 inr train_loader) /\
    (exists g w, fst (fw (NewDataLoader [ARef vds; AInt (bs * 2)]
                            (("shuffle"%string, ABool false) :: kwargs)) g w) =
                 inr valid_loader).
Proof.
  intros E. unfold DataBunch_create, DatasetTfm_init, DataBunch_init in E.
  apply bind_inv in E as (tds & s1 & E1 & E).
  apply bind_inv in E as (u2 & s2 & E2 & E).
  apply bind_inv in E as (tdl & s3 & E3 & E).
  apply bind_inv in E as (vds & s4 & E4 & E).
  apply bind_inv in E as (u5 & s5 & E5 & E).
  apply bind_inv in E as (vdl & s6 & E6 & E).
  apply alloc_inv in E1 as [H1 ->].
  apply check_keyword_inv in E2 as [Hkw ->].
  apply DeviceDataLoader_create_inv in E3 as (tl & s2' & C3 & H3 & ->).
  apply alloc_inv in E4 as [H4 ->].
  apply check_keyword_inv in E5 as [_ ->].
  apply DeviceDataLoader_create_inv in E6 as (vl & s5' & C6 & H6 & ->).
  apply alloc_inv in E as [H7 ->].
  inv_call C3. destruct C3 as [_ M3]. inv_call C6. destruct C6 as [_ M6].
  cbn [heap trace grad_enabled world] in *.
  apply lookup_insert_None in H3 as [H3 N3].
  apply lookup_insert_None in H4 as [H4 N4a].
  apply lookup_insert_None in H4 as [H4 N4b].
  apply lookup_insert_None in H6 as [H6 N6a].
  apply lookup_insert_None in H6 as [H6 N6b].
  apply lookup_insert_None in H6 as [H6 N6c].
  apply lookup_insert_None in H7 as [H7 N7a].
  apply lookup_insert_None in H7 as [H7 N7b].
  apply lookup_insert_None in H7 as [H7 N7c].
  apply lookup_insert_None in H7 as [H7 N7d].
  exists tds, tdl, vds, vdl, tl, vl.
  split; [| split; [| split; [reflexivity | split; [| split; [exact Hkw | split;
    [reflexivity | split; [eauto | eauto]]]]]]].
  - rewrite !NoDup_cons, !not_elem_of_cons.
    repeat split; auto using not_elem_of_nil, NoDup_nil_2; congruence.
  - repeat constructor; assumption.
  - rewrite <- app_assoc. reflexivity.
Qed.


(** X10: [DataBunch.create] given [shuffle] among its other keywords: the call
    of [DeviceDataLoader.create] for the training data names [shuffle]
    twice, which raises [TypeError].  By then the [DatasetTfm] of the
    training data has been made; no [DataLoader] is built and no call into
    the framework is made. *)
Theorem DataBunch_create_shuffle_twice train_ds valid_ds bs train_tfm valid_tfm device
    kwargs s :
  existsb (String.eqb "shuffle") (map fst kwargs) = true ->
  exists msg tds,
    heap s !! tds = None /\
    DataBunch_create train_ds valid_ds bs train_tfm valid_tfm device kwargs s =
      (inl (TypeError msg),
       mkSt (world s) (grad_enabled s)
         (<[tds := ODatasetTfm (mkDatasetTfm train_ds train_tfm)]> (heap s)) (trace s)).
Proof.
  intros Hkw. eexists _, (fresh (dom (heap s))).
  split; [apply not_elem_of_dom, is_fresh |].
  unfold DataBunch_create, DatasetTfm_init, check_keyword. rewrite Hkw.
  unfold alloc at 1. unfold bind at 1. reflexivity.
Qed.

Lemma get_DataBunch_at r o s :
  heap s !! r = Some (ODataBunch o) -> get_DataBunch r s = (inr o, s).
Proof. intros Hr. unfold get_DataBunch. rewrite Hr. reflexivity. Qed.

Lemma get_Learner_at r o s :
  heap s !! r = Some (OLearner o) -> get_Learner r s = (inr o, s).
Proof. intros Hr. unfold get_Learner. rewrite Hr. reflexivity. Qed.



(** X13: A [DeviceDataLoader] can be iterated again: [__iter__] keeps the
    iterator of the traversal it started in [gen]; afterwards [__len__]
    and [__iter__] still go to the same [dl], a second [__iter__] starts a
    new traversal of it, and its iterator replaces the one kept in [gen]:
    the first is not held any more. *)
Theorem DeviceDataLoader_iter_again self o s bs1 s0 bs2 s2 :
  heap s !! self = Some (ODeviceDataLoader o) ->
  call (Iterate (self_dl o)) s = (inr bs1, s0) ->
  call (Iterate (self_dl o)) (snd (DeviceDataLoader_iter self s)) = (inr bs2, s2) ->
  exists s1 s3,
    DeviceDataLoader_iter self s =
      (inr (map (DeviceDataLoader_proc_batch self) bs1), s1) /\
    heap s1 = <[self := ODeviceDataLoader
                  (mkDeviceDataLoader (self_dl o) (self_device o)
                     (Some (mkMapObject self bs1)))]> (heap s) /\
    DeviceDataLoader_len self s1 = call (Len (self_dl o)) s1 /\
    DeviceDataLoader_iter self s1 =
      (inr (map (DeviceDataLoader_proc_batch self) bs2), s3) /\
    trace s3 = trace s2 /\
    world s3 = world s2 /\
    heap s3 = <[self := ODeviceDataLoader
                  (mkDeviceDataLoader (self_dl o) (self_device o)
                     (Some (mkMapObject self bs2)))]> (heap s).
Proof.
  intros Hself E0 E2.
  assert (Hself0 : heap s0 !! self = Some (ODeviceDataLoader o))
    by (rewrite (call_heap _ _ _ _ E0); exact Hself).
  assert (E1 : DeviceDataLoader_iter self s =
               (inr (map (DeviceDataLoader_proc_batch self) bs1),
                mkSt (world s0) (grad_enabled s0)
                  (<[self := ODeviceDataLoader
                       (mkDeviceDataLoader (self_dl o) (self_device o)
                          (Some (mkMapObject self bs1)))]> (heap s0)) (trace s0))).
  { unfold DeviceDataLoader_iter.
    rewrite (bind_inr _ _ _ _ _ (get_DeviceDataLoader_at _ _ _ Hself)).
    rewrite (bind_inr _ _ _ _ _ E0).
    unfold set_gen. unfold bind at 1.
    rewrite (bind_inr _ _ _ _ _ (get_DeviceDataLoader_at _ _ _ Hself0)). reflexivity. }
  rewrite E1 in E2. cbn [snd] in E2.
  set (s1 := mkSt (world s0) (grad_enabled s0)
               (<[self := ODeviceDataLoader
                    (mkDeviceDataLoader (self_dl o) (self_device o)
                       (Some (mkMapObject self bs1)))]> (heap s0)) (trace s0)) in *.
  set (o1 := mkDeviceDataLoader (self_dl o) (self_device o) (Some (mkMapObject self bs1))).
  assert (Hself1 : heap s1 !! self = Some (ODeviceDataLoader o1))
    by apply lookup_insert_eq.
  assert (Hself2 : heap s2 !! self = Some (ODeviceDataLoader o1))
    by (rewrite (call_heap _ _ _ _ E2); exact Hself1).
  exists s1. eexists. split; [exact E1 |].
  split; [cbn [heap s1]; rewrite (call_heap _ _ _ _ E0); reflexivity |].
  split.
  { unfold DeviceDataLoader_len.
    rewrite (bind_inr _ _ _ _ _ (get_DeviceDataLoader_at _ _ _ Hself1)). reflexivity. }
  split.
  { unfold DeviceDataLoader_iter.
    rewrite (bind_inr _ _ _ _ _ (get_DeviceDataLoader_at _ _ _ Hself1)). cbn [self_dl o1].
    rewrite (bind_inr _ _ _ _ _ E2).
    unfold set_gen. unfold bind at 1.
    rewrite (bind_inr _ _ _ _ _ (get_DeviceDataLoader_at _ _ _ Hself2)).
    reflexivity. }
  split; [reflexivity |]. split; [reflexivity |].
  cbn [heap self_dl self_device o1].
  rewrite (call_heap _ _ _ _ E2). cbn [heap s1]. rewrite (call_heap _ _ _ _ E0).
  apply insert_insert_eq.
Qed.

End Wrappers.

(** ** [fit] over [DeviceDataLoader]s *)

Section OnDevice.
Context {F : Framework} {R : Runtime}.

Lemma advances_refl s : advances s [] s.
Proof. unfold advances. rewrite app_nil_r. auto. Qed.

Lemma advances_trans s e1 s1 e2 s2 :
  advances s e1 s1 -> advances s1 e2 s2 -> advances s (e1 ++ e2) s2.
Proof.
  intros (T1 & G1 & H1) (T2 & G2 & H2). unfold advances.
  rewrite T2, T1, G2, G1, app_assoc. split; [reflexivity |]. split; [reflexivity |].
  intros r. rewrite H2, H1. reflexivity.
Qed.

Lemma advances_of_extends s evs s' : extends s evs s' -> advances s evs s'.
Proof.
  intros (T & G & H). unfold advances. rewrite T, G, H. auto.
Qed.

Lemma advances_grad s evs s' : advances s evs s' -> grad_enabled s' = grad_enabled s.
Proof. intros (_ & G & _). exact G. Qed.

Lemma advances_eq s evs evs' s' : advances s evs s' -> evs = evs' -> advances s evs' s'.
Proof. intros H <-. exact H. Qed.

Lemma bound_advances self o s evs s' : advances s evs s' -> bound self o s -> bound self o s'.
Proof. intros (_ & _ & H) Hb. unfold bound. rewrite H. exact Hb. Qed.

Lemma bound_lookup self o s :
  bound self o s ->
  exists o', heap s !! self = Some (ODeviceDataLoader o') /\
             self_dl o' = self_dl o /\ self_device o' = self_device o.
Proof.
  unfold bound. destruct (heap s !! self) as [[x | x | x | x] |]; simpl; try discriminate.
  intros [= Hdl Hdev]. eauto.
Qed.

Lemma bound_here self o s : heap s !! self = Some (ODeviceDataLoader o) -> bound self o s.
Proof. intros Hself. unfold bound. rewrite Hself. reflexivity. Qed.

(** What [__iter__] of a bound loader has done when it returned. *)
Lemma DeviceDataLoader_iter_inv self o s it s' :
  bound self o s ->
  DeviceDataLoader_iter self s = (inr it, s') ->
  exists bs,
    it = map (DeviceDataLoader_proc_batch self) bs /\
    fst (fw (Iterate (self_dl o)) (grad_enabled s) (world s)) = inr bs /\
    advances s [Called (Iterate (self_dl o)) (grad_enabled s) (inr bs)] s'.
Proof.
  intros Hb E. destruct (bound_lookup self o s Hb) as (o' & Hself & Hdl & Hdev).
  pose proof (keeps_declared_iter (DevDL self) s) as K. simpl in K. rewrite E in K.
  cbn [snd] in K.
  unfold DeviceDataLoader_iter in E.
  rewrite (bind_inr _ _ _ _ _ (get_DeviceDataLoader_at _ _ _ Hself)) in E.
  rewrite Hdl in E.
  apply bind_inv in E as (bs & s1 & E1 & E).
  apply bind_inv in E as (u & s2 & Eg & E). apply ret_inv in E as [-> ->].
  inv_call E1. destruct E1 as [(T1 & G1 & H1) Hbs].
  exists bs. split; [reflexivity |]. split; [exact Hbs |].
  unfold set_gen in Eg.
  apply bind_inv in Eg as (o1 & s1' & Eget & Est).
  assert (Es1 : s1' = s1).
  { unfold get_DeviceDataLoader in Eget.
    destruct (heap s1 !! self) as [[x | x | x | x] |]; try discriminate.
    injection Eget as _ <-. reflexivity. }
  subst s1'. unfold store in Est. injection Est as _ <-.
  unfold advances. cbn [trace grad_enabled]. rewrite T1, G1.
  split; [reflexivity |]. split; [reflexivity | exact K].
Qed.

(** What [proc_batch] of a bound loader has done when it returned. *)
Lemma proc_batch_inv self o b s r s' :
  bound self o s ->
  DeviceDataLoader_proc_batch self b s = (inr r, s') ->
  extends s (moves (ifnone (self_device o) default_device) (grad_enabled s)
               (leaves b) (leaves r)) s' /\
  length (leaves r) = length (leaves b) /\
  listified b r.
Proof.
  intros Hb E. destruct (bound_lookup self o s Hb) as (o' & Hself & _ & Hdev).
  unfold DeviceDataLoader_proc_batch in E.
  rewrite (bind_inr _ _ _ _ _ (get_DeviceDataLoader_at _ _ _ Hself)) in E.
  rewrite Hdev in E. exact (to_device_returned b (self_device o) s r s' E).
Qed.

Lemma bound_extends self o s evs s' : extends s evs s' -> bound self o s -> bound self o s'.
Proof. intros X. apply bound_advances with (evs := evs), advances_of_extends, X. Qed.

Lemma listified_pair b r xb yb :
  pair_of b = Some (xb, yb) -> listified b r ->
  exists xb' yb', pair_of r = Some (xb', yb') /\ listified xb xb' /\ listified yb yb'.
Proof.
  intros Hb Hl.
  destruct b as [t | [| x [| y [| z os]]] | [| x [| y [| z os]]]];
    simpl in Hb; try discriminate; injection Hb as -> ->;
    inversion Hl as [| ? rs Hrs | ? rs Hrs]; subst;
    inversion Hrs as [| ? x' ? rs1 Hx Hrs1]; subst;
    inversion Hrs1 as [| ? y' ? rs2 Hy Hrs2]; subst;
    inversion Hrs2; subst; exists x', y'; auto.
Qed.

(** The training loop over the iterator of a bound loader. *)
Lemma moved_train_loop_inv self o model loss_fn opt bs :
  Forall (fun b => exists xb yb, pair_of b = Some (xb, yb) /\ True) bs ->
  forall s s',
    bound self o s ->
    for_ (map (DeviceDataLoader_proc_batch self) bs) (fun b =>
      '(xb, yb) <- unpack2 b;
      '(loss, _) <- loss_batch model xb yb loss_fn (Some opt);
      ret tt) s = (inr tt, s') ->
    exists evs,
      extends s evs s' /\
      moved_train_phase (ifnone (self_device o) default_device) model loss_fn opt
        (grad_enabled s) bs evs.
Proof.
  induction 1 as [| b bs (xb & yb & Hb & _) _ IH]; intros s s' Hbound E; simpl in E.
  - apply ret_inv in E as [_ ->]. exists []. split; [apply extends_refl | constructor].
  - apply bind_inv in E as (r & s0 & E0 & E).
    apply (proc_batch_inv self o) in E0 as (X0 & L0 & S0); [| exact Hbound].
    destruct (listified_pair b r xb yb Hb S0) as (xb' & yb' & Hr & _ & _).
    apply bind_inv in E as (u & s3 & Ebody & E).
    apply bind_inv in Ebody as (p & s1 & Eun & Ebody).
    apply (unpack2_inv r xb' yb') in Eun as [-> ->]; [| exact Hr].
    apply bind_inv in Ebody as ([loss n] & s2 & Elb & Ebody).
    apply ret_inv in Ebody as [-> ->].
    apply loss_batch_train_inv in Elb as (out & l & v & _ & X1).
    rewrite (extends_grad _ _ _ X0) in X1.
    pose proof (extends_trans _ _ _ _ _ X0 X1) as X01.
    apply IH in E as (evs & X2 & Hph); [| exact (bound_extends _ _ _ _ _ X01 Hbound)].
    rewrite (extends_grad _ _ _ X01) in Hph.
    eexists. split.
    + eapply extends_eq; [exact (extends_trans _ _ _ _ _ X01 X2) |].
      rewrite <- app_assoc. reflexivity.
    + econstructor; eassumption.
Qed.

(** The validation comprehension over the iterator of a bound loader, run
    with the autograd mode off. *)
Lemma moved_valid_loop_inv self o model loss_fn bs :
  Forall (fun b => exists xb yb, pair_of b = Some (xb, yb) /\ True) bs ->
  forall s rs s',
    grad_enabled s = false ->
    bound self o s ->
    comprehension (map (DeviceDataLoader_proc_batch self) bs) (fun b =>
      '(xb, yb) <- unpack2 b;
      loss_batch model xb yb loss_fn None) s = (inr rs, s') ->
    exists evs,
      extends s evs s' /\
      moved_valid_phase (ifnone (self_device o) default_device) model loss_fn bs evs rs.
Proof.
  induction 1 as [| b bs (xb & yb & Hb & _) _ IH]; intros s rs s' Hg Hbound E; simpl in E.
  - apply ret_inv in E as [-> ->]. exists []. split; [apply extends_refl | constructor].
  - apply bind_inv in E as (r & s0 & E0 & E).
    apply (proc_batch_inv self o) in E0 as (X0 & L0 & S0); [| exact Hbound].
    destruct (listified_pair b r xb yb Hb S0) as (xb' & yb' & Hr & _ & _).
    apply bind_inv in E as (res & s2 & Ebody & E).
    apply bind_inv in Ebody as (p & s1 & Eun & Ebody).
    apply (unpack2_inv r xb' yb') in Eun as [-> ->]; [| exact Hr].
    apply loss_batch_eval_inv in Ebody as (out & l & v & -> & X1).
    rewrite (extends_grad _ _ _ X0), Hg in X1. rewrite Hg in X0.
    pose proof (extends_trans _ _ _ _ _ X0 X1) as X01.
    apply bind_inv in E as (rs' & s3 & Erest & E).
    apply ret_inv in E as [-> ->].
    apply IH in Erest as (evs & X2 & Hph);
      [| rewrite (extends_grad _ _ _ X01); exact Hg
       | exact (bound_extends _ _ _ _ _ X01 Hbound)].
    eexists. split.
    + eapply extends_eq; [exact (extends_trans _ _ _ _ _ X01 X2) |].
      rewrite <- app_assoc. reflexivity.
    + econstructor; eassumption.
Qed.

Lemma fit_on_device_returned epochs model loss_fn opt tdl vdl ot ov :
  yields_pairs (fun _ => True) (self_dl ot) ->
  yields_pairs (fun _ => True) (self_dl ov) ->
  forall s s',
    bound tdl ot s ->
    bound vdl ov s ->
    fit epochs model loss_fn opt (DevDL tdl) (DevDL vdl) s = (inr tt, s') ->
    exists segs,
      advances s (concat segs) s' /\
      Forall2 (device_epoch_events model loss_fn opt (self_dl ot) (self_dl ov)
                 (ifnone (self_device ot) default_device)
                 (ifnone (self_device ov) default_device) (grad_enabled s))
        (range epochs) segs.
Proof.
  intros Htr Hva. unfold fit. generalize (range epochs) as es.
  induction es as [| epoch es IH]; intros s s' Bt Bv E; simpl in E.
  - apply ret_inv in E as [_ ->]. exists []. split; [apply advances_refl | constructor].
  - apply bind_inv in E as (e' & s0 & E0 & E). apply ret_inv in E0 as [-> ->].
    apply bind_inv in E as (u & s8 & Ebody & E).
    apply bind_inv in Ebody as (u1 & s1 & E1 & Ebody).
    apply bind_inv in Ebody as (it & s2 & E2 & Ebody).
    apply bind_inv in Ebody as (u3 & s3 & E3 & Ebody).
    apply bind_inv in Ebody as (u4 & s4 & E4 & Ebody).
    apply bind_inv in Ebody as ([losses nums] & s7 & Eng & E8).
    apply with_no_grad_inv in Eng as (s6 & Eng & ->).
    apply bind_inv in Eng as (vit & s5 & E5 & Eng).
    apply bind_inv in Eng as (rs & s6' & E6 & Eun).
    apply unzip2_inv in Eun as (Hrs & [= -> ->] & ->).
    destruct u, u1, u3, u4.
    inv_call E1; destruct E1 as [X1 _]. apply advances_of_extends in X1.
    pose proof (bound_advances _ _ _ _ _ X1 Bt) as Bt1.
    apply (DeviceDataLoader_iter_inv tdl ot) in E2 as (tbs & -> & Htbs & X2); [| exact Bt1].
    pose proof (bound_advances _ _ _ _ _ X2 Bt1) as Bt2.
    apply (moved_train_loop_inv tdl ot model loss_fn opt tbs (Htr _ _ _ Htbs)) in E3
      as (tevs & X3 & Htp); [| exact Bt2].
    apply advances_of_extends in X3.
    inv_call E4; destruct E4 as [X4 _]. apply advances_of_extends in X4.
    pose proof (advances_trans _ _ _ _ _ X1
                  (advances_trans _ _ _ _ _ X2 (advances_trans _ _ _ _ _ X3 X4))) as X14.
    pose proof (bound_advances _ _ _ _ _ X14 Bv) as Bv4.
    assert (Bv4' : bound vdl ov (log NoGradEnter (set_grad_enabled false s4))) by exact Bv4.
    apply (DeviceDataLoader_iter_inv vdl ov) in E5 as (vbs & -> & Hvbs & X5); [| exact Bv4'].
    pose proof (bound_advances _ _ _ _ _ X5 Bv4') as Bv5.
    apply (moved_valid_loop_inv vdl ov model loss_fn vbs (Hva _ _ _ Hvbs)) in E6
      as (vevs & X6 & Hvp);
      [| rewrite (advances_grad _ _ _ X5); reflexivity | exact Bv5].
    apply advances_of_extends in X6.
    inv_call E8; destruct E8 as [X8 _]. apply advances_of_extends in X8.
    pose proof (advances_grad _ _ _ X1) as G1.
    pose proof (advances_grad _ _ _ X2) as G2.
    pose proof (advances_grad _ _ _ X3) as G3.
    pose proof (advances_grad _ _ _ X4) as G4.
    assert (X7 : advances s4 ([NoGradEnter] ++
                   ([Called (Iterate (self_dl ov)) false (inr vbs)] ++ vevs) ++ [NoGradExit])
                   (log NoGradExit (set_grad_enabled (grad_enabled s4) s6'))).
    { pose proof (advances_trans _ _ _ _ _ X5 X6) as (T & G & Hh).
      unfold advances. cbn [trace grad_enabled heap log set_grad_enabled] in *.
      rewrite T. rewrite <- !app_assoc. split; [reflexivity |].
      split; [reflexivity | exact Hh]. }
    rewrite val_loss_weighted in X8.
    set (s7 := log NoGradExit (set_grad_enabled (grad_enabled s4) s6')) in *.
    assert (G7 : grad_enabled s7 = grad_enabled s)
      by (rewrite (advances_grad _ _ _ X7); congruence).
    clearbody s7.
    rewrite G7 in X8.
    rewrite G3, G2, G1 in X4. rewrite G2, G1 in Htp. rewrite G1 in X2.
    pose proof (advances_trans _ _ _ _ _ X1
                  (advances_trans _ _ _ _ _ X2
                     (advances_trans _ _ _ _ _ X3
                        (advances_trans _ _ _ _ _ X4
                           (advances_trans _ _ _ _ _ X7 X8))))) as X18.
    apply IH in E as (segs & X9 & Hsegs);
      [| exact (bound_advances _ _ _ _ _ X18 Bt) | exact (bound_advances _ _ _ _ _ X18 Bv)].
    rewrite (advances_grad _ _ _ X18) in Hsegs.
    pose proof (device_epoch_events_intro model loss_fn opt (self_dl ot) (self_dl ov)
                  (ifnone (self_device ot) default_device)
                  (ifnone (self_device ov) default_device)
                  (grad_enabled s) epoch tbs tevs vbs vevs rs Htp Hvp) as Hev.
    eexists (_ :: segs). split; [| constructor; [exact Hev | exact Hsegs]].
    eapply advances_eq; [exact (advances_trans _ _ _ _ _ X18 X9) |].
    simpl. rewrite <- !app_assoc. simpl. rewrite <- ?app_assoc. reflexivity.
Qed.

Lemma bound_heap self o s s' : heap s' = heap s -> bound self o s -> bound self o s'.
Proof. intros Hh Hb. unfold bound. rewrite Hh. exact Hb. Qed.

Lemma DeviceDataLoader_iter_returns self o s :
  never_raises ->
  bound self o s ->
  exists it s', DeviceDataLoader_iter self s = (inr it, s').
Proof.
  intros Hok Hb. destruct (bound_lookup self o s Hb) as (o' & Hself & _ & _).
  destruct (returns_call (Iterate (self_dl o')) s Hok) as (bs & s1 & E1 & _ & _ & H1).
  assert (Hself1 : heap s1 !! self = Some (ODeviceDataLoader o'))
    by (rewrite H1; exact Hself).
  unfold DeviceDataLoader_iter.
  rewrite (bind_inr _ _ _ _ _ (get_DeviceDataLoader_at _ _ _ Hself)).
  rewrite (bind_inr _ _ _ _ _ E1).
  unfold set_gen. unfold bind at 1.
  rewrite (bind_inr _ _ _ _ _ (get_DeviceDataLoader_at _ _ _ Hself1)).
  unfold store, ret. eauto.
Qed.

Lemma proc_batch_returns self o b s :
  never_raises ->
  bound self o s ->
  exists r s', DeviceDataLoader_proc_batch self b s = (inr r, s').
Proof.
  intros Hok Hb. destruct (bound_lookup self o s Hb) as (o' & Hself & _ & _).
  destruct (to_device_returns b Hok (self_device o') s) as (r & s' & (E & _) & _).
  exists r, s'. unfold DeviceDataLoader_proc_batch.
  rewrite (bind_inr _ _ _ _ _ (get_DeviceDataLoader_at _ _ _ Hself)). exact E.
Qed.

Lemma moved_train_loop_returns self o model loss_fn opt bs :
  never_raises ->
  Forall (fun b => exists xb yb, pair_of b = Some (xb, yb) /\ True) bs ->
  forall s,
    bound self o s ->
    exists s',
      for_ (map (DeviceDataLoader_proc_batch self) bs) (fun b =>
        '(xb, yb) <- unpack2 b;
        '(loss, _) <- loss_batch model xb yb loss_fn (Some opt);
        ret tt) s = (inr tt, s') /\
      heap s' = heap s.
Proof.
  intros Hok. induction 1 as [| b bs (xb & yb & Hb & _) _ IH]; intros s Hbound; simpl.
  - exists s. split; reflexivity.
  - destruct (proc_batch_returns self o b s Hok Hbound) as (r & s0 & E0).
    destruct (proc_batch_inv self o b s r s0 Hbound E0) as ((_ & _ & H0) & _ & S0).
    destruct (listified_pair b r xb yb Hb S0) as (xb' & yb' & Hr & _ & _).
    destruct (unpack2_pair r xb' yb' s0 Hr) as (Eun & _).
    destruct (loss_batch_train model xb' yb' loss_fn opt s0 Hok)
      as (out & loss & v & s1 & E1 & _ & _ & H1).
    destruct (IH s1) as (s2 & E2 & H2).
    { apply (bound_heap self o s); [congruence | exact Hbound]. }
    exists s2. split; [| congruence].
    rewrite (bind_inr _ _ _ _ _ E0). cbv beta.
    assert (Ebody : bind (unpack2 r) (fun '(xb, yb) =>
                      bind (loss_batch model xb yb loss_fn (Some opt))
                        (fun '(_, _) => ret tt)) s0 = (inr tt, s1)).
    { rewrite (bind_inr _ _ _ _ _ Eun), (bind_inr _ _ _ _ _ E1). reflexivity. }
    rewrite (bind_inr _ _ _ _ _ Ebody). exact E2.
Qed.

Lemma moved_valid_loop_returns self o model loss_fn bs :
  never_raises ->
  Forall (fun b => exists xb yb, pair_of b = Some (xb, yb) /\ True) bs ->
  forall s,
    bound self o s ->
    exists rs s',
      comprehension (map (DeviceDataLoader_proc_batch self) bs) (fun b =>
        '(xb, yb) <- unpack2 b;
        loss_batch model xb yb loss_fn None) s = (inr rs, s') /\
      heap s' = heap s /\
      length rs = length bs.
Proof.
  intros Hok. induction 1 as [| b bs (xb & yb & Hb & _) _ IH]; intros s Hbound; simpl.
  - exists [], s. auto.
  - destruct (proc_batch_returns self o b s Hok Hbound) as (r & s0 & E0).
    destruct (proc_batch_inv self o b s r s0 Hbound E0) as ((_ & _ & H0) & _ & S0).
    destruct (listified_pair b r xb yb Hb S0) as (xb' & yb' & Hr & _ & _).
    destruct (unpack2_pair r xb' yb' s0 Hr) as (Eun & _).
    destruct (loss_batch_eval model xb' yb' loss_fn s0 Hok)
      as (out & loss & v & s1 & E1 & _ & _ & H1).
    destruct (IH s1) as (rs & s2 & E2 & H2 & Hlen).
    { apply (bound_heap self o s); [congruence | exact Hbound]. }
    eexists (_ :: rs), s2. split; [| split; [congruence | simpl; congruence]].
    rewrite (bind_inr _ _ _ _ _ E0). cbv beta.
    assert (Ebody : bind (unpack2 r) (fun '(xb, yb) =>
                      loss_batch model xb yb loss_fn None) s0 =
                    (inr (v, Z.of_nat (length (listed yb'))), s1)).
    { rewrite (bind_inr _ _ _ _ _ Eun). exact E1. }
    rewrite (bind_inr _ _ _ _ _ Ebody), (bind_inr _ _ _ _ _ E2). reflexivity.
Qed.

Lemma fit_on_device_runs epochs model loss_fn opt tdl vdl ot ov :
  never_raises ->
  yields_pairs (fun _ => True) (self_dl ot) ->
  yields_pairs (fun _ => True) (self_dl ov) ->
  yields_some (self_dl ov) ->
  forall s,
    bound tdl ot s ->
    bound vdl ov s ->
    exists s', fit epochs model loss_fn opt (DevDL tdl) (DevDL vdl) s = (inr tt, s').
Proof.
  intros Hok Htr Hva Hne. unfold fit. generalize (range epochs) as es.
  induction es as [| epoch es IH]; intros s Bt Bv; simpl.
  - exists s. reflexivity.
  - destruct (returns_call (Train model) s Hok) as ([] & s1 & E1 & _ & _ & H1).
    pose proof (bound_heap _ _ _ _ H1 Bt) as Bt1.
    pose proof (bound_heap _ _ _ _ H1 Bv) as Bv1.
    destruct (DeviceDataLoader_iter_returns tdl ot s1 Hok Bt1) as (it & s2 & E2).
    destruct (DeviceDataLoader_iter_inv tdl ot s1 it s2 Bt1 E2) as (tbs & -> & Htbs & X2).
    pose proof (bound_advances _ _ _ _ _ X2 Bt1) as Bt2.
    pose proof (bound_advances _ _ _ _ _ X2 Bv1) as Bv2.
    destruct (moved_train_loop_returns tdl ot model loss_fn opt tbs Hok (Htr _ _ _ Htbs)
                s2 Bt2) as (s3 & E3 & H3).
    destruct (returns_call (Eval model) s3 Hok) as ([] & s4 & E4 & _ & _ & H4).
    assert (H42 : heap s4 = heap s2) by congruence.
    pose proof (bound_heap _ _ _ _ H42 Bt2) as Bt4.
    pose proof (bound_heap _ _ _ _ H42 Bv2) as Bv4.
    assert (Bv4' : bound vdl ov (log NoGradEnter (set_grad_enabled false s4))) by exact Bv4.
    assert (Bt4' : bound tdl ot (log NoGradEnter (set_grad_enabled false s4))) by exact Bt4.
    destruct (DeviceDataLoader_iter_returns vdl ov _ Hok Bv4') as (vit & s5 & E5).
    destruct (DeviceDataLoader_iter_inv vdl ov _ vit s5 Bv4' E5) as (vbs & -> & Hvbs & X5).
    pose proof (bound_advances _ _ _ _ _ X5 Bt4') as Bt5.
    pose proof (bound_advances _ _ _ _ _ X5 Bv4') as Bv5.
    destruct (moved_valid_loop_returns vdl ov model loss_fn vbs Hok (Hva _ _ _ Hvbs)
                s5 Bv5) as (rs & s6 & E6 & H6 & Hlen).
    assert (Hrs : exists r rs', rs = r :: rs').
    { destruct rs as [| r rs']; [| eauto]. destruct vbs; [| discriminate Hlen].
      exfalso. exact (Hne _ _ Hvbs). }
    destruct Hrs as (r & rs' & ->).
    set (s7 := log NoGradExit (set_grad_enabled (grad_enabled s4) s6)).
    destruct (returns_call (Print epoch (val_loss_of (map fst (r :: rs'))
                                          (map snd (r :: rs')))) s7 Hok)
      as ([] & s8 & E8 & _ & _ & H8).
    assert (H85 : heap s8 = heap s5) by (rewrite H8; unfold s7; cbn [heap log set_grad_enabled]; exact H6).
    destruct (IH s8) as (s9 & E9).
    { apply (bound_heap tdl ot s5); assumption. }
    { apply (bound_heap vdl ov s5); assumption. }
    exists s9.
    rewrite (bind_inr (ret epoch) _ s epoch s eq_refl).
    assert (Ebody : forall k : unit -> M unit,
              k tt s8 = (inr tt, s9) ->
              bind (bind (call (Train model)) (fun _ =>
                bind (DeviceDataLoader_iter tdl) (fun it =>
                  bind (for_ it (fun b =>
                          bind (unpack2 b) (fun '(xb, yb) =>
                            bind (loss_batch model xb yb loss_fn (Some opt))
                              (fun '(_, _) => ret tt)))) (fun _ =>
                    bind (call (Eval model)) (fun _ =>
                      bind (with_no_grad
                              (bind (DeviceDataLoader_iter vdl) (fun it0 =>
                                 bind (comprehension it0 (fun b =>
                                         bind (unpack2 b) (fun '(xb, yb) =>
                                           loss_batch model xb yb loss_fn None)))
                                   (fun rs => unzip2 rs))))
                        (fun '(losses, nums) =>
                           call (Print epoch (val_loss_of losses nums)))))))) k s
              = (inr tt, s9)).
    { intros k Hk.
      assert (Eng : with_no_grad
                      (bind (DeviceDataLoader_iter vdl) (fun it0 =>
                         bind (comprehension it0 (fun b =>
                                 bind (unpack2 b) (fun '(xb, yb) =>
                                   loss_batch model xb yb loss_fn None)))
                           (fun rs => unzip2 rs))) s4
                    = (inr (map fst (r :: rs'), map snd (r :: rs')), s7)).
      { unfold with_no_grad.
        rewrite (bind_inr _ _ _ _ _ E5), (bind_inr _ _ _ _ _ E6). reflexivity. }
      rewrite (bind_inr _ _ s tt s8); [exact Hk |].
      rewrite (bind_inr _ _ _ _ _ E1), (bind_inr _ _ _ _ _ E2), (bind_inr _ _ _ _ _ E3),
        (bind_inr _ _ _ _ _ E4), (bind_inr _ _ _ _ _ Eng). exact E8. }
    apply Ebody. exact E9.
Qed.


End OnDevice.

(** ** From the datasets to the trained model *)

Section Pipeline.
Context {F : Framework} {R : Runtime}.


End Pipeline.

(** ** The further statements on the small framework *)



Lemma fit_batch_not_a_pair_witness :
  1 <= 1 /\
  is_listy (Toy.batch_of [1; 2; 3]) = true /\
  length (items (Toy.batch_of [1; 2; 3])) <> 2%nat /\
  exists msg,
    fit (R := Toy.runtime None) 1 ToyData.net ToyData.mse ToyData.sgd
      (ExtDL ToyEdges.three_items) (ExtDL ToyData.two_batches) (Toy.s0 None) =
    (inl (ValueError msg),
     snd (call (R := Toy.runtime None) (Iterate ToyEdges.three_items)
            (snd (call (R := Toy.runtime None) (Train ToyData.net) (Toy.s0 None))))).
Proof.
  split; [lia |]. split; [reflexivity |]. split; [simpl; lia |].
  apply (fit_batch_not_a_pair (R := Toy.runtime None) 1 ToyData.net ToyData.mse ToyData.sgd
           ToyEdges.three_items (ExtDL ToyData.two_batches) (Toy.s0 None)
           (snd (call (R := Toy.runtime None) (Train ToyData.net) (Toy.s0 None)))
           (Toy.batch_of [1; 2; 3]) []).
  - lia.
  - reflexivity.
  - reflexivity.
  - reflexivity.
  - simpl; lia.
Defined.


Lemma DatasetTfm_getitem_not_a_pair_witness :
  heap ToyEdges.with_triples !! ToyData.first =
    Some (ODatasetTfm (mkDatasetTfm ToyData.samples None)) /\
  exists msg,
    DatasetTfm_getitem (R := ToyEdges.triples) ToyData.first 0 ToyEdges.with_triples =
    (inl (ValueError msg),
     snd (call (R := ToyEdges.triples) (DsGetItem ToyData.samples 0) ToyEdges.with_triples)).
Proof.
  split; [reflexivity |].
  apply (DatasetTfm_getitem_not_a_pair (R := ToyEdges.triples) ToyData.first ToyData.samples
           None 0 ToyEdges.with_triples
           (PyTuple [ToyData.tns 1; ToyData.tns 2; ToyData.tns 3])).
  - reflexivity.
  - reflexivity.
  - reflexivity.
  - simpl; lia.
Defined.


Lemma DataBunch_create_shuffle_twice_witness :
  existsb (String.eqb "shuffle") (map fst ToyEdges.shuffled) = true /\
  exists msg tds,
    heap (Toy.s0 None) !! tds = None /\
    DataBunch_create (R := Toy.runtime None) ToyData.samples ToyData.samples 64 None None
      None ToyEdges.shuffled (Toy.s0 None) =
      (inl (TypeError msg),
       mkSt (world (Toy.s0 None)) (grad_enabled (Toy.s0 None))
         (<[tds := ODatasetTfm (mkDatasetTfm ToyData.samples None)]> (heap (Toy.s0 None)))
         (trace (Toy.s0 None))).
Proof.
  split; [reflexivity |].
  apply (DataBunch_create_shuffle_twice (R := Toy.runtime None) ToyData.samples
           ToyData.samples 64 None None None ToyEdges.shuffled (Toy.s0 None)).
  reflexivity.
Defined.



Lemma DeviceDataLoader_iter_again_witness :
  heap ToyData.with_loader !! ToyData.first =
    Some (ODeviceDataLoader (mkDeviceDataLoader ToyData.two_batches None None)) /\
  exists s1 s3,
    DeviceDataLoader_iter (R := Toy.runtime None) ToyData.first ToyData.with_loader =
      (inr (map (DeviceDataLoader_proc_batch ToyData.first)
              [Toy.batch_of [1; 2]; Toy.batch_of [3; 4]]), s1) /\
    DeviceDataLoader_iter (R := Toy.runtime None) ToyData.first s1 =
      (inr (map (DeviceDataLoader_proc_batch ToyData.first)
              [Toy.batch_of [1; 2]; Toy.batch_of [3; 4]]), s3) /\
    heap s3 =
      <[ToyData.first := ODeviceDataLoader
          (mkDeviceDataLoader ToyData.two_batches None
             (Some (mkMapObject ToyData.first
                      [Toy.batch_of [1; 2]; Toy.batch_of [3; 4]])))]>
        (heap ToyData.with_loader).
Proof.
  split; [reflexivity |].
  destruct (DeviceDataLoader_iter_again (R := Toy.runtime None) ToyData.first
              (mkDeviceDataLoader ToyData.two_batches None None) ToyData.with_loader
              [Toy.batch_of [1; 2]; Toy.batch_of [3; 4]]
              (snd (call (R := Toy.runtime None) (Iterate ToyData.two_batches)
                      ToyData.with_loader))
              [Toy.batch_of [1; 2]; Toy.batch_of [3; 4]]
              (snd (call (R := Toy.runtime None) (Iterate ToyData.two_batches)
                      (snd (DeviceDataLoader_iter (R := Toy.runtime None) ToyData.first
                              ToyData.with_loader)))))
    as (s1 & s3 & E1 & _ & _ & E3 & _ & _ & Hh).
  - reflexivity.
  - reflexivity.
  - reflexivity.
  - exists s1, s3. split; [exact E1 |]. split; [exact E3 | exact Hh].
Defined.


Lemma toy_loaders_yield_pairs args kw g w dl :
  fst (fw (Runtime := Toy.runtime None) (NewDataLoader args kw) g w) = inr dl ->
  yields_pairs (R := Toy.runtime None) (fun _ => True) dl.
Proof.
  intros Hdl. simpl in Hdl. injection Hdl as <-.
  intros g' w' bs Hbs. simpl in Hbs. injection Hbs as <-.
  repeat constructor; eexists _, _; (split; [reflexivity | exact I]).
Qed.


(** The first batch of the loader is moved, then trained on, before the
    second is moved. *)
Example fit_on_device_first_events :
  firstn 11 (trace (snd (fit (R := Toy.runtime None) 1 ToyData.net ToyData.mse ToyData.sgd
                           (DevDL ToyData.first) (DevDL ToyData.first)
                           ToyData.with_loader))) =
  [ Called (Train ToyData.net) true (inr tt);
    Called (Iterate ToyData.two_batches) true
      (inr [Toy.batch_of [1; 2]; Toy.batch_of [3; 4]]);
    Called (TensorTo (ToyData.tensor 1) (torch_device "cpu")) true (inr (ToyData.tensor 1));
    Called (TensorTo (ToyData.tensor 2) (torch_device "cpu")) true (inr (ToyData.tensor 2));
    Called (Forward ToyData.net [ToyData.tns 1]) true (inr (ToyData.tensor 1));
    Called (LossFn ToyData.mse (ToyData.tensor 1) [ToyData.tns 2]) true
      (inr (ToyData.tensor 1));
    Called (Backward (ToyData.tensor 1)) true (inr tt);
    Called (OptStep ToyData.sgd) true (inr tt);
    Called (ZeroGrad ToyData.sgd) true (inr tt);
    Called (Item (ToyData.tensor 1)) true (inr (ToyData.float (inject_Z 1)));
    Called (TensorTo (ToyData.tensor 3) (torch_device "cpu")) true (inr (ToyData.tensor 3)) ].
Proof. vm_compute. reflexivity. Qed.
